(** * Password presets and generated-password log: the server actions

    A shallow embedding of [src/actions/index.ts] and of the two tables
    declared in the database configuration next to it.

    - The payload of a call is a JavaScript object, modelled as a finite map
      from keys to values; a key that is absent reads as [undefined].
    - Each action is an input schema followed by a handler; the schema runs
      first and the handler only ever sees a parsed input.
    - Handlers run in a state-and-exception monad over the two tables.  The
      state also records which database calls were issued, so that
      statements such as "no lookup is performed" can be made.
    - [crypto.randomUUID()] and [new Date()] are read from an explicit
      environment.
    - The store is the SQLite engine behind the database client: it checks
      the declared primary and foreign keys, keeps whole numbers as 64-bit
      integers, and hands text back up to its first U+0000 character; its
      client refuses to pass a non-finite number in, and to hand an integer
      beyond 2^53 - 1 back, be it from an insert, an update or a select. *)

From Stdlib Require Import QArith.
From stdpp Require Import gmap strings list.

Local Open Scope string_scope.
Local Open Scope list_scope.

(** ** JavaScript values and the schema combinators used by the actions *)

(** A JavaScript number other than NaN: a finite one, taken as a rational,
    or one of the two infinities. *)
Inductive number : Type :=
| Finite (q : Q)
| Infinity (negative : bool).

Coercion Finite : Q >-> number.

(** Strings are well-formed Unicode text, dates are valid ones, given as
    milliseconds since the epoch.  Anything else (arrays, nested objects, NaN,
    an invalid date, ...) is [VOther]: every schema below rejects it. *)
Inductive value : Type :=
| VString (s : string)
| VNumber (n : number)
| VBoolean (b : bool)
| VDate (t : Z)
| VNull
| VOther.

(** A schema reads one property of the payload ([None] is [undefined]) and
    either yields the parsed value or reports an issue ([None]). *)
Definition schema (T : Type) : Type := option value → option T.

Definition z_string : schema string := λ v,
  match v with Some (VString s) => Some s | _ => None end.

Definition z_number : schema number := λ v,
  match v with Some (VNumber n) => Some n | _ => None end.

Definition z_boolean : schema bool := λ v,
  match v with Some (VBoolean b) => Some b | _ => None end.

Definition z_date : schema Z := λ v,
  match v with Some (VDate t) => Some t | _ => None end.

(** [Number.isInteger] on a finite number. *)
Definition isInteger (n : Q) : bool :=
  (Qnum n mod Zpos (Qden n) =? 0)%Z.

(** [.min(k)] on a string schema. *)
Definition z_min_length (k : nat) (s : schema string) : schema string := λ v,
  x ← s v; if (k <=? String.length x)%nat then Some x else None.

(** [.int()] and [.min(k)] on a number schema.  [Number.isInteger] is false
    of the infinities, so what passes [.int()] is a rational. *)
Definition z_int (s : schema number) : schema Q := λ v,
  x ← s v;
  match x with
  | Finite q => if isInteger q then Some q else None
  | Infinity _ => None
  end.

Definition z_min (k : Q) (s : schema Q) : schema Q := λ v,
  x ← s v; if Qle_bool k x then Some x else None.

(** [.optional()] and [.default(d)]: only [undefined] is let through. *)
Definition z_optional {T} (s : schema T) : schema (option T) := λ v,
  match v with None => Some None | Some _ => Some <$> s v end.

Definition z_default {T} (s : schema T) (d : T) : schema T := λ v,
  match v with None => Some d | Some _ => s v end.

(** [.refine(check)] on an object schema. *)
Definition z_refine {T} (check : T → bool) (parsed : option T) : option T :=
  x ← parsed; if check x then Some x else None.

(** [x !== undefined] *)
Definition defined {T} (x : option T) : bool :=
  match x with Some _ => true | None => false end.

(** The narrowing done by [if (s)] on an optional string: the empty string
    is falsy, like [undefined]. *)
Definition truthy (s : option string) : option string :=
  match s with
  | Some x => if String.eqb x "" then None else Some x
  | None => None
  end.

(** ** What the store does to the values it is given *)

(** Text comes back from the store cut at its first U+0000 character. *)
Fixpoint cut_nul (s : string) : string :=
  match s with
  | EmptyString => EmptyString
  | String c s' =>
      if Ascii.eqb c Ascii.zero then EmptyString else String c (cut_nul s')
  end.

(** The client binds finite numbers only. *)
Definition binds (n : number) : bool :=
  match n with Finite _ => true | Infinity _ => false end.

(** [Number.MAX_SAFE_INTEGER], and the bounds of a 64-bit integer. *)
Definition MAX_SAFE_INTEGER : Q := 9007199254740991 # 1.
Definition SMALLEST_INT64 : Q := -9223372036854775808 # 1.
Definition LARGEST_INT64 : Q := 9223372036854775807 # 1.

Definition Qlt_bool (a b : Q) : bool := negb (Qle_bool b a).

(** Number columns have integer affinity: a whole number strictly between the
    64-bit bounds is kept as an integer, any other number as a float. *)
Definition stored_as_integer (q : Q) : bool :=
  isInteger q && Qlt_bool SMALLEST_INT64 q && Qlt_bool q LARGEST_INT64.

(** The client hands a float back as it is, and an integer only when it is a
    safe one. *)
Definition reads_back (q : Q) : bool :=
  negb (stored_as_integer q) ||
  (Qle_bool (- MAX_SAFE_INTEGER) q && Qle_bool q MAX_SAFE_INTEGER).

(** ** Tables

    The cut applies to the text a payload supplies.  Ids are results of
    [crypto.randomUUID()], owners are ids of signed-in users, and a stored
    presetId is the id of a stored preset (the foreign key): none of them
    holds a U+0000 character. *)

Module PasswordPreset.
Record t : Type := {
  id : string;
  userId : string;
  name : string;
  length : Q;
  includeLowercase : bool;
  includeUppercase : bool;
  includeNumbers : bool;
  includeSymbols : bool;
  excludeSimilar : bool;
  customSymbols : option string;
  notes : option string;
  isDefault : bool;
  createdAt : Z;
  updatedAt : Z;
}.

(** The object given to [.set(...)]: the columns to overwrite. *)
Record set : Type := {
  set_name : option string;
  set_length : option Q;
  set_includeLowercase : option bool;
  set_includeUppercase : option bool;
  set_includeNumbers : option bool;
  set_includeSymbols : option bool;
  set_excludeSimilar : option bool;
  set_customSymbols : option string;
  set_notes : option string;
  set_isDefault : option bool;
  set_updatedAt : option Z;
}.

Definition apply_set (s : set) (r : t) : t :=
  {| id := id r;
     userId := userId r;
     name := default (name r) (set_name s);
     length := default (length r) (set_length s);
     includeLowercase := default (includeLowercase r) (set_includeLowercase s);
     includeUppercase := default (includeUppercase r) (set_includeUppercase s);
     includeNumbers := default (includeNumbers r) (set_includeNumbers s);
     includeSymbols := default (includeSymbols r) (set_includeSymbols s);
     excludeSimilar := default (excludeSimilar r) (set_excludeSimilar s);
     customSymbols :=
       match set_customSymbols s with Some x => Some x | None => customSymbols r end;
     notes := match set_notes s with Some x => Some x | None => notes r end;
     isDefault := default (isDefault r) (set_isDefault s);
     createdAt := createdAt r;
     updatedAt := default (updatedAt r) (set_updatedAt s) |}.

(** A row, and a [.set(...)] object, as the store hands their text back. *)
Definition stored (r : t) : t :=
  {| id := id r;
     userId := userId r;
     name := cut_nul (name r);
     length := length r;
     includeLowercase := includeLowercase r;
     includeUppercase := includeUppercase r;
     includeNumbers := includeNumbers r;
     includeSymbols := includeSymbols r;
     excludeSimilar := excludeSimilar r;
     customSymbols := cut_nul <$> customSymbols r;
     notes := cut_nul <$> notes r;
     isDefault := isDefault r;
     createdAt := createdAt r;
     updatedAt := updatedAt r |}.

Definition stored_set (s : set) : set :=
  {| set_name := cut_nul <$> set_name s;
     set_length := set_length s;
     set_includeLowercase := set_includeLowercase s;
     set_includeUppercase := set_includeUppercase s;
     set_includeNumbers := set_includeNumbers s;
     set_includeSymbols := set_includeSymbols s;
     set_excludeSimilar := set_excludeSimilar s;
     set_customSymbols := cut_nul <$> set_customSymbols s;
     set_notes := cut_nul <$> set_notes s;
     set_isDefault := set_isDefault s;
     set_updatedAt := set_updatedAt s |}.

(** The client can hand the row back. *)
Definition readable (r : t) : bool := reads_back (length r).
End PasswordPreset.

Module GeneratedPassword.
Record t : Type := {
  id : string;
  userId : string;
  presetId : option string;
  encryptedValue : option string;
  hintLabel : option string;
  length : option number;
  wasCopied : bool;
  lastCopiedAt : option Z;
  createdAt : Z;
}.

Definition stored (r : t) : t :=
  {| id := id r;
     userId := userId r;
     presetId := presetId r;
     encryptedValue := cut_nul <$> encryptedValue r;
     hintLabel := cut_nul <$> hintLabel r;
     length := length r;
     wasCopied := wasCopied r;
     lastCopiedAt := lastCopiedAt r;
     createdAt := createdAt r |}.

(** The client can pass the row in, and can hand it back. *)
Definition bindable (r : t) : bool :=
  match length r with Some n => binds n | None => true end.

Definition readable (r : t) : bool :=
  match length r with
  | Some (Finite q) => reads_back q
  | Some (Infinity _) => false
  | None => true
  end.
End GeneratedPassword.

Record Database : Type := {
  PasswordPresets : list PasswordPreset.t;
  GeneratedPasswords : list GeneratedPassword.t;
}.

(** ** Request context, errors, and the monad of handlers *)

Record User : Type := { user_id : string }.
Record Locals : Type := { user : option User }.
Record ActionAPIContext : Type := { locals : option Locals }.

(** What the runtime provides to one call. *)
Record Env : Type := {
  randomUUID : string;   (* crypto.randomUUID() *)
  now : Z;               (* new Date() *)
}.

Inductive ErrorCode : Type := UNAUTHORIZED | NOT_FOUND.

Inductive Error : Type :=
| ActionError (code : ErrorCode)   (* thrown by a handler *)
| ActionInputError                 (* the payload does not match the schema *)
| ConstraintError                  (* the store refuses the row: a primary or
                                      foreign key would be violated *)
| RangeError.                      (* the database client refuses a number *)

Inductive Result (A : Type) : Type :=
| Ok (a : A)
| Err (e : Error).
Arguments Ok {A} a.
Arguments Err {A} e.

Inductive DbCall : Type :=
| SelectPasswordPresets
| InsertPasswordPresets
| UpdatePasswordPresets
| SelectGeneratedPasswords
| InsertGeneratedPasswords.

Record World : Type := {
  db : Database;
  calls : list DbCall;   (* database calls issued so far, oldest first *)
}.

Definition M (A : Type) : Type := World → Result A * World.

Definition ret {A} (a : A) : M A := λ w, (Ok a, w).
Definition throw {A} (e : Error) : M A := λ w, (Err e, w).
Definition bind {A B} (m : M A) (k : A → M B) : M B := λ w,
  match m w with
  | (Ok a, w') => k a w'
  | (Err e, w') => (Err e, w')
  end.

Notation "'let!' x ':=' m 'in' k" := (bind m (λ x, k))
  (at level 10, x pattern, m at level 100, k at level 200).

Definition issue (c : DbCall) (d : Database) (w : World) : World :=
  {| db := d; calls := calls w ++ [c] |}.

(** ** Database calls *)

(** [eq(column, v)] and [and(...filters)] *)
Definition eq_ {R C} `{EqDecision C} (column : R → C) (v : C) : R → bool :=
  λ r, bool_decide (column r = v).

Definition and_ {R} (filters : list (R → bool)) : R → bool :=
  λ r, forallb (λ f, f r) filters.

(** The rows of a result, as the client hands them back: all of them, unless
    one holds an integer it cannot represent, in which case the call throws. *)
Definition hand_back {R} (readable : R → bool) (rows : list R) : Result (list R) :=
  if forallb readable rows then Ok rows else Err RangeError.

(** [db.select().from(PasswordPresets).where(cond)]: the matching rows, in
    table order. *)
Definition select_PasswordPresets (cond : PasswordPreset.t → bool)
  : M (list PasswordPreset.t) := λ w,
  (hand_back PasswordPreset.readable (List.filter cond (PasswordPresets (db w))),
   issue SelectPasswordPresets (db w) w).

Definition select_GeneratedPasswords (cond : GeneratedPassword.t → bool)
  : M (list GeneratedPassword.t) := λ w,
  (hand_back GeneratedPassword.readable
     (List.filter cond (GeneratedPasswords (db w))),
   issue SelectGeneratedPasswords (db w) w).

(** [db.insert(PasswordPresets).values(row).returning()]: [id] is the primary
    key, so a row whose id is taken is refused and nothing is written.  A row
    that is written stays written even when [.returning()] cannot hand it
    back. *)
Definition insert_PasswordPresets (row : PasswordPreset.t)
  : M (list PasswordPreset.t) := λ w,
  if existsb (eq_ PasswordPreset.id (PasswordPreset.id row)) (PasswordPresets (db w))
  then (Err ConstraintError, issue InsertPasswordPresets (db w) w)
  else
    let row := PasswordPreset.stored row in
    (hand_back PasswordPreset.readable [row],
     issue InsertPasswordPresets
       {| PasswordPresets := PasswordPresets (db w) ++ [row];
          GeneratedPasswords := GeneratedPasswords (db w) |} w).

(** [presetId] references [PasswordPresets.id]: a row may name only the id of
    a stored preset, whoever owns it, or none. *)
Definition references (presetId : option string) (d : Database) : bool :=
  match presetId with
  | Some pid => existsb (eq_ PasswordPreset.id pid) (PasswordPresets d)
  | None => true
  end.

(** [db.insert(GeneratedPasswords).values(row).returning()]: the client first
    refuses a non-finite number; the store then refuses a taken id and a
    presetId that is not the id of a preset; in all three cases nothing is
    written. *)
Definition insert_GeneratedPasswords (row : GeneratedPassword.t)
  : M (list GeneratedPassword.t) := λ w,
  if negb (GeneratedPassword.bindable row)
  then (Err RangeError, issue InsertGeneratedPasswords (db w) w)
  else if existsb (eq_ GeneratedPassword.id (GeneratedPassword.id row))
            (GeneratedPasswords (db w))
          || negb (references (GeneratedPassword.presetId row) (db w))
  then (Err ConstraintError, issue InsertGeneratedPasswords (db w) w)
  else
    let row := GeneratedPassword.stored row in
    (hand_back GeneratedPassword.readable [row],
     issue InsertGeneratedPasswords
       {| PasswordPresets := PasswordPresets (db w);
          GeneratedPasswords := GeneratedPasswords (db w) ++ [row] |} w).

(** [db.update(PasswordPresets).set(s).where(cond).returning()]: every
    matching row is overwritten in place; the new rows are returned, unless
    the client cannot hand one of them back. *)
Definition update_PasswordPresets (s : PasswordPreset.set)
    (cond : PasswordPreset.t → bool) : M (list PasswordPreset.t) := λ w,
  let s := PasswordPreset.stored_set s in
  (hand_back PasswordPreset.readable
     (map (PasswordPreset.apply_set s) (List.filter cond (PasswordPresets (db w)))),
   issue UpdatePasswordPresets
     {| PasswordPresets :=
          map (λ r, if cond r then PasswordPreset.apply_set s r else r)
            (PasswordPresets (db w));
        GeneratedPasswords := GeneratedPasswords (db w) |} w).

(** ** The two helpers *)

Definition requireUser (context : ActionAPIContext) : M User :=
  let user := locals context ≫= user in
  match user with
  | None => throw (ActionError UNAUTHORIZED)
  | Some u => ret u
  end.

Definition getOwnedPreset (presetId userId : string) : M PasswordPreset.t :=
  let! rows := select_PasswordPresets
                 (and_ [eq_ PasswordPreset.id presetId;
                        eq_ PasswordPreset.userId userId]) in
  match head rows with
  | None => throw (ActionError NOT_FOUND)
  | Some preset => ret preset
  end.

(** ** Result envelopes *)

Record Success (D : Type) : Type := { success : bool; data : D }.
Arguments success {D} _.
Arguments data {D} _.

Record PresetData : Type := { preset : option PasswordPreset.t }.
Record PasswordData : Type := { password : option GeneratedPassword.t }.
Record ListData (R : Type) : Type := { items : list R; total : nat }.
Arguments items {R} _.
Arguments total {R} _.

Definition payload : Type := gmap string value.

(** [defineAction({ input, handler })]: the payload is parsed first; the
    handler runs on the parsed input only. *)
Definition defineAction {I O} (input : payload → option I)
    (handler : I → ActionAPIContext → Env → M O)
  : payload → ActionAPIContext → Env → M O :=
  λ raw context env,
  match input raw with
  | Some i => handler i context env
  | None => throw ActionInputError
  end.

(** ** createPreset *)

Module CreatePresetInput.
Record t : Type := {
  name : string;
  length : Q;
  includeLowercase : bool;
  includeUppercase : bool;
  includeNumbers : bool;
  includeSymbols : bool;
  excludeSimilar : bool;
  customSymbols : option string;
  notes : option string;
  isDefault : option bool;
}.
End CreatePresetInput.

Definition createPreset_input (raw : payload) : option CreatePresetInput.t :=
  name ← z_min_length 1 z_string (raw !! "name");
  length ← z_min (4 # 1) (z_int z_number) (raw !! "length");
  includeLowercase ← z_default z_boolean true (raw !! "includeLowercase");
  includeUppercase ← z_default z_boolean true (raw !! "includeUppercase");
  includeNumbers ← z_default z_boolean true (raw !! "includeNumbers");
  includeSymbols ← z_default z_boolean true (raw !! "includeSymbols");
  excludeSimilar ← z_default z_boolean false (raw !! "excludeSimilar");
  customSymbols ← z_optional z_string (raw !! "customSymbols");
  notes ← z_optional z_string (raw !! "notes");
  isDefault ← z_optional z_boolean (raw !! "isDefault");
  Some {| CreatePresetInput.name := name;
          CreatePresetInput.length := length;
          CreatePresetInput.includeLowercase := includeLowercase;
          CreatePresetInput.includeUppercase := includeUppercase;
          CreatePresetInput.includeNumbers := includeNumbers;
          CreatePresetInput.includeSymbols := includeSymbols;
          CreatePresetInput.excludeSimilar := excludeSimilar;
          CreatePresetInput.customSymbols := customSymbols;
          CreatePresetInput.notes := notes;
          CreatePresetInput.isDefault := isDefault |}.

Definition createPreset_handler (input : CreatePresetInput.t)
    (context : ActionAPIContext) (env : Env) : M (Success PresetData) :=
  let! user := requireUser context in
  let now := now env in
  let! rows := insert_PasswordPresets
    {| PasswordPreset.id := randomUUID env;
       PasswordPreset.userId := user_id user;
       PasswordPreset.name := CreatePresetInput.name input;
       PasswordPreset.length := CreatePresetInput.length input;
       PasswordPreset.includeLowercase := CreatePresetInput.includeLowercase input;
       PasswordPreset.includeUppercase := CreatePresetInput.includeUppercase input;
       PasswordPreset.includeNumbers := CreatePresetInput.includeNumbers input;
       PasswordPreset.includeSymbols := CreatePresetInput.includeSymbols input;
       PasswordPreset.excludeSimilar := CreatePresetInput.excludeSimilar input;
       PasswordPreset.customSymbols := CreatePresetInput.customSymbols input;
       PasswordPreset.notes := CreatePresetInput.notes input;
       PasswordPreset.isDefault := default false (CreatePresetInput.isDefault input);
       PasswordPreset.createdAt := now;
       PasswordPreset.updatedAt := now |} in
  ret {| success := true; data := {| preset := head rows |} |}.

Definition createPreset := defineAction createPreset_input createPreset_handler.

(** ** updatePreset *)

Module UpdatePresetInput.
Record t : Type := {
  id : string;
  name : option string;
  length : option Q;
  includeLowercase : option bool;
  includeUppercase : option bool;
  includeNumbers : option bool;
  includeSymbols : option bool;
  excludeSimilar : option bool;
  customSymbols : option string;
  notes : option string;
  isDefault : option bool;
}.
End UpdatePresetInput.

Definition updatePreset_refine (input : UpdatePresetInput.t) : bool :=
  defined (UpdatePresetInput.name input) ||
  defined (UpdatePresetInput.length input) ||
  defined (UpdatePresetInput.includeLowercase input) ||
  defined (UpdatePresetInput.includeUppercase input) ||
  defined (UpdatePresetInput.includeNumbers input) ||
  defined (UpdatePresetInput.includeSymbols input) ||
  defined (UpdatePresetInput.excludeSimilar input) ||
  defined (UpdatePresetInput.customSymbols input) ||
  defined (UpdatePresetInput.notes input) ||
  defined (UpdatePresetInput.isDefault input).

Definition updatePreset_object (raw : payload) : option UpdatePresetInput.t :=
  id ← z_min_length 1 z_string (raw !! "id");
  name ← z_optional z_string (raw !! "name");
  length ← z_optional (z_min (4 # 1) (z_int z_number)) (raw !! "length");
  includeLowercase ← z_optional z_boolean (raw !! "includeLowercase");
  includeUppercase ← z_optional z_boolean (raw !! "includeUppercase");
  includeNumbers ← z_optional z_boolean (raw !! "includeNumbers");
  includeSymbols ← z_optional z_boolean (raw !! "includeSymbols");
  excludeSimilar ← z_optional z_boolean (raw !! "excludeSimilar");
  customSymbols ← z_optional z_string (raw !! "customSymbols");
  notes ← z_optional z_string (raw !! "notes");
  isDefault ← z_optional z_boolean (raw !! "isDefault");
  Some {| UpdatePresetInput.id := id;
          UpdatePresetInput.name := name;
          UpdatePresetInput.length := length;
          UpdatePresetInput.includeLowercase := includeLowercase;
          UpdatePresetInput.includeUppercase := includeUppercase;
          UpdatePresetInput.includeNumbers := includeNumbers;
          UpdatePresetInput.includeSymbols := includeSymbols;
          UpdatePresetInput.excludeSimilar := excludeSimilar;
          UpdatePresetInput.customSymbols := customSymbols;
          UpdatePresetInput.notes := notes;
          UpdatePresetInput.isDefault := isDefault |}.

Definition updatePreset_input (raw : payload) : option UpdatePresetInput.t :=
  z_refine updatePreset_refine (updatePreset_object raw).

(** The argument of [.set(...)]: a column is present exactly when the input
    field is not [undefined]; [updatedAt] always is. *)
Definition updatePreset_set (input : UpdatePresetInput.t) (env : Env)
  : PasswordPreset.set :=
  {| PasswordPreset.set_name := UpdatePresetInput.name input;
     PasswordPreset.set_length := UpdatePresetInput.length input;
     PasswordPreset.set_includeLowercase := UpdatePresetInput.includeLowercase input;
     PasswordPreset.set_includeUppercase := UpdatePresetInput.includeUppercase input;
     PasswordPreset.set_includeNumbers := UpdatePresetInput.includeNumbers input;
     PasswordPreset.set_includeSymbols := UpdatePresetInput.includeSymbols input;
     PasswordPreset.set_excludeSimilar := UpdatePresetInput.excludeSimilar input;
     PasswordPreset.set_customSymbols := UpdatePresetInput.customSymbols input;
     PasswordPreset.set_notes := UpdatePresetInput.notes input;
     PasswordPreset.set_isDefault := UpdatePresetInput.isDefault input;
     PasswordPreset.set_updatedAt := Some (now env) |}.

Definition updatePreset_handler (input : UpdatePresetInput.t)
    (context : ActionAPIContext) (env : Env) : M (Success PresetData) :=
  let! user := requireUser context in
  let! _ := getOwnedPreset (UpdatePresetInput.id input) (user_id user) in
  let! rows := update_PasswordPresets (updatePreset_set input env)
                 (eq_ PasswordPreset.id (UpdatePresetInput.id input)) in
  ret {| success := true; data := {| preset := head rows |} |}.

Definition updatePreset := defineAction updatePreset_input updatePreset_handler.

(** ** listPresets *)

Record ListPresetsInput : Type := { defaultsOnly : bool }.

Definition listPresets_input (raw : payload) : option ListPresetsInput :=
  defaultsOnly ← z_default z_boolean false (raw !! "defaultsOnly");
  Some {| defaultsOnly := defaultsOnly |}.

Definition listPresets_handler (input : ListPresetsInput)
    (context : ActionAPIContext) (env : Env)
  : M (Success (ListData PasswordPreset.t)) :=
  let! user := requireUser context in
  let filters := [eq_ PasswordPreset.userId (user_id user)] in
  let filters :=
    if defaultsOnly input
    then filters ++ [eq_ PasswordPreset.isDefault true]
    else filters in
  let! presets := select_PasswordPresets (and_ filters) in
  ret {| success := true;
         data := {| items := presets; total := length presets |} |}.

Definition listPresets := defineAction listPresets_input listPresets_handler.

(** ** logGeneratedPassword *)

Module LogGeneratedPasswordInput.
Record t : Type := {
  presetId : option string;
  encryptedValue : option string;
  hintLabel : option string;
  length : option number;
  wasCopied : option bool;
  lastCopiedAt : option Z;
}.
End LogGeneratedPasswordInput.

Definition logGeneratedPassword_input (raw : payload)
  : option LogGeneratedPasswordInput.t :=
  presetId ← z_optional z_string (raw !! "presetId");
  encryptedValue ← z_optional z_string (raw !! "encryptedValue");
  hintLabel ← z_optional z_string (raw !! "hintLabel");
  length ← z_optional z_number (raw !! "length");
  wasCopied ← z_optional z_boolean (raw !! "wasCopied");
  lastCopiedAt ← z_optional z_date (raw !! "lastCopiedAt");
  Some {| LogGeneratedPasswordInput.presetId := presetId;
          LogGeneratedPasswordInput.encryptedValue := encryptedValue;
          LogGeneratedPasswordInput.hintLabel := hintLabel;
          LogGeneratedPasswordInput.length := length;
          LogGeneratedPasswordInput.wasCopied := wasCopied;
          LogGeneratedPasswordInput.lastCopiedAt := lastCopiedAt |}.

Definition logGeneratedPassword_handler (input : LogGeneratedPasswordInput.t)
    (context : ActionAPIContext) (env : Env) : M (Success PasswordData) :=
  let! user := requireUser context in
  let! _ :=
    match truthy (LogGeneratedPasswordInput.presetId input) with
    | Some presetId => let! _ := getOwnedPreset presetId (user_id user) in ret tt
    | None => ret tt
    end in
  let! rows := insert_GeneratedPasswords
    {| GeneratedPassword.id := randomUUID env;
       GeneratedPassword.userId := user_id user;
       GeneratedPassword.presetId := LogGeneratedPasswordInput.presetId input;
       GeneratedPassword.encryptedValue := LogGeneratedPasswordInput.encryptedValue input;
       GeneratedPassword.hintLabel := LogGeneratedPasswordInput.hintLabel input;
       GeneratedPassword.length := LogGeneratedPasswordInput.length input;
       GeneratedPassword.wasCopied :=
         default false (LogGeneratedPasswordInput.wasCopied input);
       GeneratedPassword.lastCopiedAt := LogGeneratedPasswordInput.lastCopiedAt input;
       GeneratedPassword.createdAt := now env |} in
  ret {| success := true; data := {| password := head rows |} |}.

Definition logGeneratedPassword :=
  defineAction logGeneratedPassword_input logGeneratedPassword_handler.

(** ** listGeneratedPasswords *)

Record ListGeneratedPasswordsInput : Type := { presetId : option string }.

Definition listGeneratedPasswords_input (raw : payload)
  : option ListGeneratedPasswordsInput :=
  presetId ← z_optional z_string (raw !! "presetId");
  Some {| presetId := presetId |}.

Definition listGeneratedPasswords_handler (input : ListGeneratedPasswordsInput)
    (context : ActionAPIContext) (env : Env)
  : M (Success (ListData GeneratedPassword.t)) :=
  let! user := requireUser context in
  let filters := [eq_ GeneratedPassword.userId (user_id user)] in
  let! filters :=
    match truthy (presetId input) with
    | Some presetId =>
        let! _ := getOwnedPreset presetId (user_id user) in
        ret (filters ++ [eq_ GeneratedPassword.presetId (Some presetId)])
    | None => ret filters
    end in
  let! passwords := select_GeneratedPasswords (and_ filters) in
  ret {| success := true;
         data := {| items := passwords; total := length passwords |} |}.

Definition listGeneratedPasswords :=
  defineAction listGeneratedPasswords_input listGeneratedPasswords_handler.

(** ** Numbers the store hands back

    A number within the safe-integer range comes back from the store whatever
    its kind. *)
Definition safe (q : Q) : Prop :=
  (- MAX_SAFE_INTEGER <= q)%Q ∧ (q <= MAX_SAFE_INTEGER)%Q.

Definition safe_number (n : option number) : Prop :=
  match n with
  | Some (Finite q) => safe q
  | Some (Infinity _) => False
  | None => True
  end.

(** ** The rows the handlers give to [.values(...)] *)

Definition createPreset_values (input : CreatePresetInput.t) (user : User)
    (env : Env) : PasswordPreset.t :=
  {| PasswordPreset.id := randomUUID env;
     PasswordPreset.userId := user_id user;
     PasswordPreset.name := CreatePresetInput.name input;
     PasswordPreset.length := CreatePresetInput.length input;
     PasswordPreset.includeLowercase := CreatePresetInput.includeLowercase input;
     PasswordPreset.includeUppercase := CreatePresetInput.includeUppercase input;
     PasswordPreset.includeNumbers := CreatePresetInput.includeNumbers input;
     PasswordPreset.includeSymbols := CreatePresetInput.includeSymbols input;
     PasswordPreset.excludeSimilar := CreatePresetInput.excludeSimilar input;
     PasswordPreset.customSymbols := CreatePresetInput.customSymbols input;
     PasswordPreset.notes := CreatePresetInput.notes input;
     PasswordPreset.isDefault := default false (CreatePresetInput.isDefault input);
     PasswordPreset.createdAt := now env;
     PasswordPreset.updatedAt := now env |}.

Definition logGeneratedPassword_values (input : LogGeneratedPasswordInput.t)
    (user : User) (env : Env) : GeneratedPassword.t :=
  {| GeneratedPassword.id := randomUUID env;
     GeneratedPassword.userId := user_id user;
     GeneratedPassword.presetId := LogGeneratedPasswordInput.presetId input;
     GeneratedPassword.encryptedValue := LogGeneratedPasswordInput.encryptedValue input;
     GeneratedPassword.hintLabel := LogGeneratedPasswordInput.hintLabel input;
     GeneratedPassword.length := LogGeneratedPasswordInput.length input;
     GeneratedPassword.wasCopied :=
       default false (LogGeneratedPasswordInput.wasCopied input);
     GeneratedPassword.lastCopiedAt := LogGeneratedPasswordInput.lastCopiedAt input;
     GeneratedPassword.createdAt := now env |}.

(** ** Store invariant

    [id] is the primary key of both tables, and every id is the result of
    [crypto.randomUUID()], hence a non-empty string. *)

Record wf_db (d : Database) : Prop := {
  wf_presets_pk : NoDup (PasswordPreset.id <$> PasswordPresets d);
  wf_passwords_pk : NoDup (GeneratedPassword.id <$> GeneratedPasswords d);
  wf_presets_id : Forall (λ p, PasswordPreset.id p ≠ "") (PasswordPresets d);
}.

(** A computation keeps the store well formed. *)
Definition preserves {A} (m : M A) : Prop :=
  ∀ w, wf_db (db w) → wf_db (db (m w).2).

(** A store all of whose rows the client can hand back. *)
Definition readable_db (d : Database) : Prop :=
  forallb PasswordPreset.readable (PasswordPresets d) = true ∧
  forallb GeneratedPassword.readable (GeneratedPasswords d) = true.

(** The caller of a request, if any: [context.locals?.user]. *)
Definition caller (context : ActionAPIContext) : option User :=
  locals context ≫= user.

(** "The flag equals the supplied value or, when omitted, the default." *)
Definition supplied_or_default (raw : payload) (key : string) (dflt actual : bool)
  : Prop :=
  (∀ b, raw !! key = Some (VBoolean b) → actual = b) ∧
  (raw !! key = None → actual = dflt).


(** The outcome of a call that stops at the ownership lookup: NOT_FOUND, one
    select issued, both tables as before. *)
Definition denied {A} (w : World) : Result A * World :=
  (Err (ActionError NOT_FOUND),
   {| db := db w; calls := calls w ++ [SelectPasswordPresets] |}).

(** The keys of the update schema other than [id]. *)
Definition updatePreset_optional_keys : list string :=
  ["name"; "length"; "includeLowercase"; "includeUppercase"; "includeNumbers";
   "includeSymbols"; "excludeSimilar"; "customSymbols"; "notes"; "isDefault"].

(** ** Sample data used to exercise the statements *)

Module Sample.
Definition alice : ActionAPIContext :=
  {| locals := Some {| user := Some {| user_id := "alice" |} |} |}.
Definition anonymous : ActionAPIContext :=
  {| locals := Some {| user := None |} |}.
Definition env : Env :=
  {| randomUUID := "0b0e7a52-9d1c-4c6e-8a51-2f6f0c1d3e4a"; now := 1700000000000 |}.
Definition bobs_preset : PasswordPreset.t :=
  {| PasswordPreset.id := "6f1d2c3b-4a59-4e87-9b0a-1c2d3e4f5a6b";
     PasswordPreset.userId := "bob";
     PasswordPreset.name := "Bank";
     PasswordPreset.length := 24 # 1;
     PasswordPreset.includeLowercase := true;
     PasswordPreset.includeUppercase := true;
     PasswordPreset.includeNumbers := true;
     PasswordPreset.includeSymbols := false;
     PasswordPreset.excludeSimilar := true;
     PasswordPreset.customSymbols := None;
     PasswordPreset.notes := None;
     PasswordPreset.isDefault := true;
     PasswordPreset.createdAt := 1600000000000;
     PasswordPreset.updatedAt := 1600000000000 |}.
Definition alices_preset : PasswordPreset.t :=
  {| PasswordPreset.id := "a3c5e7f9-1b2d-4f60-8132-435465768798";
     PasswordPreset.userId := "alice";
     PasswordPreset.name := "Wi-Fi";
     PasswordPreset.length := 12 # 1;
     PasswordPreset.includeLowercase := true;
     PasswordPreset.includeUppercase := true;
     PasswordPreset.includeNumbers := true;
     PasswordPreset.includeSymbols := true;
     PasswordPreset.excludeSimilar := false;
     PasswordPreset.customSymbols := None;
     PasswordPreset.notes := None;
     PasswordPreset.isDefault := false;
     PasswordPreset.createdAt := 1650000000000;
     PasswordPreset.updatedAt := 1650000000000 |}.
Definition alices_password : GeneratedPassword.t :=
  {| GeneratedPassword.id := "c0ffee00-1111-4222-8333-444455556666";
     GeneratedPassword.userId := "alice";
     GeneratedPassword.presetId := Some "a3c5e7f9-1b2d-4f60-8132-435465768798";
     GeneratedPassword.encryptedValue := Some "b64:9f3a";
     GeneratedPassword.hintLabel := Some "Home Wi-Fi";
     GeneratedPassword.length := Some (Finite (12 # 1));
     GeneratedPassword.wasCopied := true;
     GeneratedPassword.lastCopiedAt := None;
     GeneratedPassword.createdAt := 1660000000000 |}.
Definition world : World :=
  {| db := {| PasswordPresets := [bobs_preset; alices_preset];
              GeneratedPasswords := [alices_password] |};
     calls := [] |}.

(** Payloads *)
Definition wifi : payload :=
  {[ "name" := VString "Wi-Fi"; "length" := VNumber (12 # 1) ]}.
Definition longer : payload :=
  {[ "id" := VString "a3c5e7f9-1b2d-4f60-8132-435465768798";
     "length" := VNumber (20 # 1) ]}.
Definition copied : payload :=
  {[ "encryptedValue" := VString "b64:51c0"; "wasCopied" := VBoolean true ]}.
Definition empty_presetId : payload :=
  {[ "presetId" := VString ""; "hintLabel" := VString "Gmail" ]}.

(** Parsed inputs *)
Definition wifi_input : CreatePresetInput.t :=
  {| CreatePresetInput.name := "Wi-Fi";
     CreatePresetInput.length := 12 # 1;
     CreatePresetInput.includeLowercase := true;
     CreatePresetInput.includeUppercase := true;
     CreatePresetInput.includeNumbers := true;
     CreatePresetInput.includeSymbols := true;
     CreatePresetInput.excludeSimilar := false;
     CreatePresetInput.customSymbols := None;
     CreatePresetInput.notes := None;
     CreatePresetInput.isDefault := None |}.
Definition copied_input : LogGeneratedPasswordInput.t :=
  {| LogGeneratedPasswordInput.presetId := None;
     LogGeneratedPasswordInput.encryptedValue := Some "b64:51c0";
     LogGeneratedPasswordInput.hintLabel := None;
     LogGeneratedPasswordInput.length := None;
     LogGeneratedPasswordInput.wasCopied := Some true;
     LogGeneratedPasswordInput.lastCopiedAt := None |}.
End Sample.

(** ** Vocabulary for the further properties *)

(** Calls that write to a table. *)
Definition is_write (c : DbCall) : bool :=
  match c with
  | InsertPasswordPresets | UpdatePasswordPresets | InsertGeneratedPasswords => true
  | SelectPasswordPresets | SelectGeneratedPasswords => false
  end.

(** At most two calls were issued between two worlds, at most one a write. *)
Definition bounded_calls (w w' : World) : Prop :=
  ∃ l, calls w' = calls w ++ l ∧ (length l ≤ 2)%nat ∧
       (length (List.filter is_write l) ≤ 1)%nat.

(** Only reads were issued between two worlds. *)
Definition only_reads (w w' : World) : Prop :=
  ∃ l, calls w' = calls w ++ l ∧ Forall (λ c, is_write c = false) l.

(** Every logged password that names a preset (by a non-empty id) names one
    that exists and belongs to the owner of the log entry. *)
Definition refs_owned (d : Database) : Prop :=
  Forall (λ g, ∀ pid, GeneratedPassword.presetId g = Some pid → pid ≠ "" →
               ∃ p, p ∈ PasswordPresets d ∧ PasswordPreset.id p = pid ∧
                    PasswordPreset.userId p = GeneratedPassword.userId g)
    (GeneratedPasswords d).

(** The rows of a user, in table order. *)
Definition presets_of (userId : string) (d : Database) : list PasswordPreset.t :=
  List.filter (eq_ PasswordPreset.userId userId) (PasswordPresets d).

Definition passwords_of (userId : string) (d : Database) : list GeneratedPassword.t :=
  List.filter (eq_ GeneratedPassword.userId userId) (GeneratedPasswords d).

(** "The payload either lacks the key or holds a value of the right kind." *)
Definition absent_or (kind : value → Prop) (raw : payload) (key : string) : Prop :=
  match raw !! key with
  | None => True
  | Some v => kind v
  end.

Definition is_string (v : value) : Prop := ∃ s, v = VString s.
Definition is_boolean (v : value) : Prop := ∃ b, v = VBoolean b.
Definition is_number (v : value) : Prop := ∃ n, v = VNumber n.
Definition is_date (v : value) : Prop := ∃ t, v = VDate t.
Definition is_length (v : value) : Prop :=
  ∃ q, v = VNumber (Finite q) ∧ isInteger q = true ∧ (4 # 1 <= q)%Q.

(** "The column holds the supplied value, or null when the key is absent." *)
Definition passed_through {T} (inj : T → value) (raw : payload) (key : string)
    (actual : option T) : Prop :=
  match raw !! key with
  | None => actual = None
  | Some v => ∃ x, v = inj x ∧ actual = Some x
  end.


Ltac unfold_actions :=
  unfold createPreset, updatePreset, listPresets, logGeneratedPassword,
    listGeneratedPasswords, defineAction,
    createPreset_handler, updatePreset_handler, listPresets_handler,
    logGeneratedPassword_handler, listGeneratedPasswords_handler,
    getOwnedPreset, requireUser, bind, ret, throw,
    select_PasswordPresets, select_GeneratedPasswords,
    insert_PasswordPresets, insert_GeneratedPasswords,
    update_PasswordPresets, hand_back, issue.

(** Splits a run of an action along the tests the code performs. *)
Ltac case_outcome :=
  repeat (cbn beta iota;
          match goal with
          | |- context [match ?x with _ => _ end] =>
              lazymatch x with
              | context [match _ with _ => _ end] => fail
              | _ => destruct x eqn:?
              end
          end).

(** Parsing an object succeeds exactly when parsing each property does. *)
Ltac split_object :=
  repeat match goal with
         | |- context [mbind _ ?m] => destruct m; simpl
         end;
  rewrite ?is_Some_alt; tauto.

(** The payloads each schema lets through, said without the combinators. *)
Definition createPreset_accepts (raw : payload) : Prop :=
  (∃ n, raw !! "name" = Some (VString n) ∧ n ≠ "") ∧
  (∃ x, raw !! "length" = Some x ∧ is_length x) ∧
  absent_or is_boolean raw "includeLowercase" ∧
  absent_or is_boolean raw "includeUppercase" ∧
  absent_or is_boolean raw "includeNumbers" ∧
  absent_or is_boolean raw "includeSymbols" ∧
  absent_or is_boolean raw "excludeSimilar" ∧
  absent_or is_string raw "customSymbols" ∧
  absent_or is_string raw "notes" ∧
  absent_or is_boolean raw "isDefault".

Definition updatePreset_accepts (raw : payload) : Prop :=
  (∃ i, raw !! "id" = Some (VString i) ∧ i ≠ "") ∧
  absent_or is_string raw "name" ∧
  absent_or is_length raw "length" ∧
  absent_or is_boolean raw "includeLowercase" ∧
  absent_or is_boolean raw "includeUppercase" ∧
  absent_or is_boolean raw "includeNumbers" ∧
  absent_or is_boolean raw "includeSymbols" ∧
  absent_or is_boolean raw "excludeSimilar" ∧
  absent_or is_string raw "customSymbols" ∧
  absent_or is_string raw "notes" ∧
  absent_or is_boolean raw "isDefault" ∧
  Exists (λ k, is_Some (raw !! k)) updatePreset_optional_keys.

Definition logGeneratedPassword_accepts (raw : payload) : Prop :=
  absent_or is_string raw "presetId" ∧
  absent_or is_string raw "encryptedValue" ∧
  absent_or is_string raw "hintLabel" ∧
  absent_or is_number raw "length" ∧
  absent_or is_boolean raw "wasCopied" ∧
  absent_or is_date raw "lastCopiedAt".

(** Two worlds hold the same rows of a user, and show the same lists to a
    caller. *)
Definition same_rows_for (userId : string) (w w' : World) : Prop :=
  presets_of userId (db w') = presets_of userId (db w) ∧
  passwords_of userId (db w') = passwords_of userId (db w).

Definition same_lists_for (context : ActionAPIContext) (w w' : World) : Prop :=
  ∀ raw env,
    (listPresets raw context env w').1 = (listPresets raw context env w).1 ∧
    (listGeneratedPasswords raw context env w').1
    = (listGeneratedPasswords raw context env w).1.

(** The envelope of a list action. *)
Definition listing {R} (rows : list R) : Success (ListData R) :=
  {| success := true; data := {| items := rows; total := length rows |} |}.

(** The row the ownership lookup stops at, if any. *)
Definition owned_preset (presetId userId : string) (d : Database)
  : option PasswordPreset.t :=
  head (List.filter (and_ [eq_ PasswordPreset.id presetId;
                           eq_ PasswordPreset.userId userId])
          (PasswordPresets d)).

(** ** More sample data *)

Module Scenario.
Definition bob : ActionAPIContext :=
  {| locals := Some {| user := Some {| user_id := "bob" |} |} |}.
Definition for_wifi : payload :=
  {[ "presetId" := VString "a3c5e7f9-1b2d-4f60-8132-435465768798";
     "hintLabel" := VString "Router" ]}.
Definition for_wifi_input : LogGeneratedPasswordInput.t :=
  {| LogGeneratedPasswordInput.presetId := Some "a3c5e7f9-1b2d-4f60-8132-435465768798";
     LogGeneratedPasswordInput.encryptedValue := None;
     LogGeneratedPasswordInput.hintLabel := Some "Router";
     LogGeneratedPasswordInput.length := None;
     LogGeneratedPasswordInput.wasCopied := None;
     LogGeneratedPasswordInput.lastCopiedAt := None |}.
Definition for_bobs : payload :=
  {[ "presetId" := VString "6f1d2c3b-4a59-4e87-9b0a-1c2d3e4f5a6b" ]}.
(** A runtime whose generated id collides with a stored preset, and one whose
    generated id collides with a stored password. *)
Definition colliding_preset : Env :=
  {| randomUUID := "6f1d2c3b-4a59-4e87-9b0a-1c2d3e4f5a6b"; now := 1700000000000 |}.
Definition colliding_password : Env :=
  {| randomUUID := "c0ffee00-1111-4222-8333-444455556666"; now := 1700000000000 |}.
(** A second update of the same preset. *)
Definition renamed : payload :=
  {[ "id" := VString "a3c5e7f9-1b2d-4f60-8132-435465768798";
     "name" := VString "Guest Wi-Fi"; "isDefault" := VBoolean true ]}.
(** 2^53, the first whole number the client does not hand back, in a preset
    and in a log entry; and a log entry of infinite length. *)
Definition two_to_53 : Q := 9007199254740992 # 1.
Definition vault : payload :=
  {[ "name" := VString "Vault"; "length" := VNumber (Finite two_to_53) ]}.
Definition long_log : payload :=
  {[ "hintLabel" := VString "Vault"; "length" := VNumber (Finite two_to_53) ]}.
Definition endless_log : payload :=
  {[ "hintLabel" := VString "Vault"; "length" := VNumber (Infinity false) ]}.
Definition endless_log_input : LogGeneratedPasswordInput.t :=
  {| LogGeneratedPasswordInput.presetId := None;
     LogGeneratedPasswordInput.encryptedValue := None;
     LogGeneratedPasswordInput.hintLabel := Some "Vault";
     LogGeneratedPasswordInput.length := Some (Infinity false);
     LogGeneratedPasswordInput.wasCopied := None;
     LogGeneratedPasswordInput.lastCopiedAt := None |}.
(** The store after Alice's call of createPreset with [vault], and after her
    call of logGeneratedPassword with [long_log]. *)
Definition after_vault : World :=
  (createPreset vault Sample.alice Sample.env Sample.world).2.
Definition after_long_log : World :=
  (logGeneratedPassword long_log Sample.alice Sample.env Sample.world).2.
End Scenario.

(** The parsed input of an update whose payload is a later payload laid over
    an earlier one: a field of the later one wins when it is supplied. *)
Definition later_wins {T} (later earlier : option T) : option T :=
  match later with Some x => Some x | None => earlier end.

Definition merge_updates (later earlier : UpdatePresetInput.t) : UpdatePresetInput.t :=
  {| UpdatePresetInput.id := UpdatePresetInput.id later;
     UpdatePresetInput.name :=
       later_wins (UpdatePresetInput.name later) (UpdatePresetInput.name earlier);
     UpdatePresetInput.length :=
       later_wins (UpdatePresetInput.length later) (UpdatePresetInput.length earlier);
     UpdatePresetInput.includeLowercase :=
       later_wins (UpdatePresetInput.includeLowercase later)
         (UpdatePresetInput.includeLowercase earlier);
     UpdatePresetInput.includeUppercase :=
       later_wins (UpdatePresetInput.includeUppercase later)
         (UpdatePresetInput.includeUppercase earlier);
     UpdatePresetInput.includeNumbers :=
       later_wins (UpdatePresetInput.includeNumbers later)
         (UpdatePresetInput.includeNumbers earlier);
     UpdatePresetInput.includeSymbols :=
       later_wins (UpdatePresetInput.includeSymbols later)
         (UpdatePresetInput.includeSymbols earlier);
     UpdatePresetInput.excludeSimilar :=
       later_wins (UpdatePresetInput.excludeSimilar later)
         (UpdatePresetInput.excludeSimilar earlier);
     UpdatePresetInput.customSymbols :=
       later_wins (UpdatePresetInput.customSymbols later)
         (UpdatePresetInput.customSymbols earlier);
     UpdatePresetInput.notes :=
       later_wins (UpdatePresetInput.notes later) (UpdatePresetInput.notes earlier);
     UpdatePresetInput.isDefault :=
       later_wins (UpdatePresetInput.isDefault later)
         (UpdatePresetInput.isDefault earlier) |}.

(** Inverts the parse of an object schema into the parses of its properties. *)
Ltac invert_object H :=
  repeat (let x := fresh "x" in let Hx := fresh "Hx" in
          apply bind_Some in H as (x & Hx & H));
  injection H as <-; simpl in *.

(** ** Basic facts about the helpers *)

Section Helpers.
Context (context : ActionAPIContext) (w : World).

Lemma requireUser_signed_in u :
  caller context = Some u → requireUser context w = (Ok u, w).
Proof. unfold requireUser, caller. by intros ->. Qed.

Lemma requireUser_anonymous :
  caller context = None →
  requireUser context w = (Err (ActionError UNAUTHORIZED), w).
Proof. unfold requireUser, caller. by intros ->. Qed.
End Helpers.

Lemma defineAction_valid {I O} (schema : payload → option I)
    (handler : I → ActionAPIContext → Env → M O) raw i context env :
  schema raw = Some i →
  defineAction schema handler raw context env = handler i context env.
Proof. unfold defineAction. by intros ->. Qed.

Lemma defineAction_invalid {I O} (schema : payload → option I)
    (handler : I → ActionAPIContext → Env → M O) raw context env w :
  schema raw = None →
  defineAction schema handler raw context env w = (Err ActionInputError, w).
Proof. unfold defineAction. by intros ->. Qed.

(** ** Unauthenticated calls *)

(** C2: when the request context carries no user, each of the five handlers
    fails with UNAUTHORIZED on every (parsed) input, without issuing any
    database call and leaving the store as it was. *)
Theorem unauthenticated_rejected context env w :
  caller context = None →
  (∀ input, createPreset_handler input context env w
            = (Err (ActionError UNAUTHORIZED), w)) ∧
  (∀ input, updatePreset_handler input context env w
            = (Err (ActionError UNAUTHORIZED), w)) ∧
  (∀ input, listPresets_handler input context env w
            = (Err (ActionError UNAUTHORIZED), w)) ∧
  (∀ input, logGeneratedPassword_handler input context env w
            = (Err (ActionError UNAUTHORIZED), w)) ∧
  (∀ input, listGeneratedPasswords_handler input context env w
            = (Err (ActionError UNAUTHORIZED), w)).
Proof.
  intros Hnone.
  repeat split; intros input;
    unfold createPreset_handler, updatePreset_handler, listPresets_handler,
      logGeneratedPassword_handler, listGeneratedPasswords_handler, bind;
    by rewrite requireUser_anonymous.
Qed.

Lemma unauthenticated_rejected_witness :
  (∀ input, createPreset_handler input Sample.anonymous Sample.env Sample.world
            = (Err (ActionError UNAUTHORIZED), Sample.world)) ∧
  (∀ input, updatePreset_handler input Sample.anonymous Sample.env Sample.world
            = (Err (ActionError UNAUTHORIZED), Sample.world)) ∧
  (∀ input, listPresets_handler input Sample.anonymous Sample.env Sample.world
            = (Err (ActionError UNAUTHORIZED), Sample.world)) ∧
  (∀ input, logGeneratedPassword_handler input Sample.anonymous Sample.env Sample.world
            = (Err (ActionError UNAUTHORIZED), Sample.world)) ∧
  (∀ input, listGeneratedPasswords_handler input Sample.anonymous Sample.env Sample.world
            = (Err (ActionError UNAUTHORIZED), Sample.world)).
Proof. apply (unauthenticated_rejected Sample.anonymous). reflexivity. Defined.

(** The schema runs before the session guard: an anonymous call with a payload
    the schema rejects fails on validation, not on authentication. *)
Example validation_precedes_session_guard :
  createPreset ∅ Sample.anonymous Sample.env Sample.world
  = (Err ActionInputError, Sample.world).
Proof. reflexivity. Qed.

Example anonymous_create_rejected :
  createPreset Sample.wifi Sample.anonymous Sample.env Sample.world
  = (Err (ActionError UNAUTHORIZED), Sample.world).
Proof. reflexivity. Qed.

(** ** Update without any field *)

(** C3: a payload for updatePreset that carries none of the ten optional keys
    is rejected by input validation, whatever its id and whoever calls; the
    handler does not run and the store is left as it was. *)
Theorem updatePreset_requires_a_field (raw : payload) context env w :
  Forall (λ k, raw !! k = None) updatePreset_optional_keys →
  updatePreset raw context env w = (Err ActionInputError, w).
Proof.
  intros Hkeys. unfold updatePreset. apply defineAction_invalid.
  unfold updatePreset_optional_keys in Hkeys.
  repeat match goal with
         | H : Forall _ (_ :: _) |- _ =>
             apply Forall_cons in H; destruct H as [? H]
         end.
  unfold updatePreset_input, updatePreset_object.
  repeat match goal with H : raw !! _ = None |- _ => rewrite H; clear H end.
  by destruct (z_min_length 1 z_string (raw !! "id")).
Qed.

Lemma updatePreset_requires_a_field_witness :
  updatePreset {[ "id" := VString "a3c5e7f9-1b2d-4f60-8132-435465768798" ]}
    Sample.alice Sample.env Sample.world
  = (Err ActionInputError, Sample.world).
Proof.
  apply updatePreset_requires_a_field.
  unfold updatePreset_optional_keys. repeat constructor.
Defined.

(** ** Ownership lookup *)

Lemma filter_none {A} (cond : A → bool) (l : list A) :
  Forall (λ r, cond r = false) l → List.filter cond l = [].
Proof.
  induction 1 as [|r l Hr _ IH]; simpl; [done|]. by rewrite Hr.
Qed.

Lemma filter_primary_key {A} (key : A → string) (cond : A → bool) l p :
  NoDup (key <$> l) → p ∈ l → cond p = true →
  (∀ r, cond r = true → key r = key p) →
  List.filter cond l = [p].
Proof.
  intros Hnd Hin Hp Hkey.
  induction l as [|r l IH]; [by apply elem_of_nil in Hin|].
  rewrite fmap_cons in Hnd. apply NoDup_cons in Hnd as [Hfresh Hnd].
  apply elem_of_cons in Hin as [<-|Hin]; simpl.
  - rewrite Hp. f_equal. apply filter_none, Forall_forall. intros r Hr.
    destruct (cond r) eqn:E; [|done]. exfalso. apply Hfresh.
    rewrite <- (Hkey r E). by apply list_elem_of_fmap_2.
  - destruct (cond r) eqn:E; [|by apply IH].
    exfalso. apply Hfresh. rewrite (Hkey r E). by apply list_elem_of_fmap_2.
Qed.

Lemma owned_filter_true presetId userId (r : PasswordPreset.t) :
  and_ [eq_ PasswordPreset.id presetId; eq_ PasswordPreset.userId userId] r = true
  ↔ PasswordPreset.id r = presetId ∧ PasswordPreset.userId r = userId.
Proof.
  unfold and_, eq_. simpl. rewrite !andb_true_iff, !bool_decide_eq_true. tauto.
Qed.

Lemma hand_back_readable {R} (readable : R → bool) (cond : R → bool) l :
  forallb readable l = true →
  hand_back readable (List.filter cond l) = Ok (List.filter cond l).
Proof.
  intros Hall. unfold hand_back.
  assert (forallb readable (List.filter cond l) = true) as ->; [|done].
  apply forallb_forall. intros r [Hr _]%filter_In.
  by apply (proj1 (forallb_forall _ _) Hall).
Qed.

Lemma getOwnedPreset_found presetId userId w p :
  NoDup (PasswordPreset.id <$> PasswordPresets (db w)) →
  p ∈ PasswordPresets (db w) →
  PasswordPreset.id p = presetId → PasswordPreset.userId p = userId →
  getOwnedPreset presetId userId w
  = (if PasswordPreset.readable p then Ok p else Err RangeError,
     {| db := db w; calls := calls w ++ [SelectPasswordPresets] |}).
Proof.
  intros Hnd Hin Hid Hown.
  unfold getOwnedPreset, bind, select_PasswordPresets, hand_back.
  rewrite (filter_primary_key PasswordPreset.id _ _ p); [|done..| |].
  - simpl. rewrite andb_true_r. by destruct (PasswordPreset.readable p).
  - by apply owned_filter_true.
  - intros r Hr. apply owned_filter_true in Hr. destruct Hr. congruence.
Qed.

Lemma getOwnedPreset_missing presetId userId w :
  Forall (λ r, PasswordPreset.id r = presetId → PasswordPreset.userId r ≠ userId)
    (PasswordPresets (db w)) →
  getOwnedPreset presetId userId w
  = (Err (ActionError NOT_FOUND),
     {| db := db w; calls := calls w ++ [SelectPasswordPresets] |}).
Proof.
  intros Hall. unfold getOwnedPreset, bind, select_PasswordPresets.
  rewrite filter_none; [done|].
  eapply Forall_impl; [exact Hall|]. intros r Hr; simpl in Hr.
  destruct (and_ _ r) eqn:E; [|done].
  apply owned_filter_true in E as [E1 E2]. by destruct (Hr E1).
Qed.

(** Under the primary key, a preset owned by somebody else is the only row
    with its id, so no row with that id belongs to the caller. *)
Lemma foreign_preset_unowned (d : Database) p userId :
  NoDup (PasswordPreset.id <$> PasswordPresets d) →
  p ∈ PasswordPresets d → PasswordPreset.userId p ≠ userId →
  Forall (λ r, PasswordPreset.id r = PasswordPreset.id p →
               PasswordPreset.userId r ≠ userId) (PasswordPresets d).
Proof.
  intros Hnd Hin Hne. apply Forall_forall. intros r Hr Hid.
  destruct (list_elem_of_lookup_1 _ _ Hin) as [i Hi].
  destruct (list_elem_of_lookup_1 _ _ Hr) as [j Hj].
  assert (i = j) as ->.
  { eapply NoDup_lookup; [exact Hnd| |]; rewrite list_lookup_fmap.
    - by rewrite Hi.
    - rewrite Hj. simpl. by rewrite Hid. }
  congruence.
Qed.

Lemma truthy_nonempty s : s ≠ "" → truthy (Some s) = Some s.
Proof.
  intros Hs. unfold truthy. destruct (String.eqb_spec s ""); [done|done].
Qed.

(** ** Presets owned by somebody else *)

(** C1: in a well-formed store, when the preset with a given id belongs to a
    user other than the caller, updatePreset on that id, and
    logGeneratedPassword and listGeneratedPasswords with that presetId, all
    fail with NOT_FOUND; the only database call issued is the ownership
    select, and both tables are left as they were. *)
Theorem foreign_preset_not_found context u env w p :
  caller context = Some u →
  wf_db (db w) →
  p ∈ PasswordPresets (db w) →
  PasswordPreset.userId p ≠ user_id u →
  (∀ input, UpdatePresetInput.id input = PasswordPreset.id p →
     updatePreset_handler input context env w = denied w) ∧
  (∀ input,
     LogGeneratedPasswordInput.presetId input = Some (PasswordPreset.id p) →
     logGeneratedPassword_handler input context env w = denied w) ∧
  (∀ input, presetId input = Some (PasswordPreset.id p) →
     listGeneratedPasswords_handler input context env w = denied w).
Proof.
  intros Hu [Hpk _ Hids] Hin Hforeign. unfold denied.
  pose proof (foreign_preset_unowned _ _ _ Hpk Hin Hforeign) as Hnone.
  assert (PasswordPreset.id p ≠ "") as Hid.
  { by apply (proj1 (Forall_forall _ _) Hids). }
  repeat split; intros input Hinput.
  - unfold updatePreset_handler, bind.
    rewrite (requireUser_signed_in _ _ _ Hu), Hinput.
    by rewrite (getOwnedPreset_missing _ _ _ Hnone).
  - unfold logGeneratedPassword_handler, bind.
    rewrite (requireUser_signed_in _ _ _ Hu), Hinput, (truthy_nonempty _ Hid).
    by rewrite (getOwnedPreset_missing _ _ _ Hnone).
  - unfold listGeneratedPasswords_handler, bind.
    rewrite (requireUser_signed_in _ _ _ Hu), Hinput, (truthy_nonempty _ Hid).
    by rewrite (getOwnedPreset_missing _ _ _ Hnone).
Qed.

Lemma sample_world_wf : wf_db (db Sample.world).
Proof.
  split; simpl.
  - apply (bool_decide_unpack _). vm_compute. exact I.
  - apply (bool_decide_unpack _). vm_compute. exact I.
  - repeat constructor; discriminate.
Defined.

Lemma foreign_preset_not_found_witness :
  let pid := PasswordPreset.id Sample.bobs_preset in
  (∀ input, UpdatePresetInput.id input = pid →
     updatePreset_handler input Sample.alice Sample.env Sample.world
     = denied Sample.world) ∧
  (∀ input, LogGeneratedPasswordInput.presetId input = Some pid →
     logGeneratedPassword_handler input Sample.alice Sample.env Sample.world
     = denied Sample.world) ∧
  (∀ input, presetId input = Some pid →
     listGeneratedPasswords_handler input Sample.alice Sample.env Sample.world
     = denied Sample.world).
Proof.
  apply (foreign_preset_not_found Sample.alice {| user_id := "alice" |}).
  - reflexivity.
  - exact sample_world_wf.
  - simpl. apply list_elem_of_here.
  - simpl. discriminate.
Defined.

(** ** What the schemas accept *)

Lemma z_string_Some v s : z_string v = Some s ↔ v = Some (VString s).
Proof. unfold z_string. destruct v as [[]|]; split; congruence. Qed.

Lemma z_number_Some v n : z_number v = Some n ↔ v = Some (VNumber n).
Proof. unfold z_number. destruct v as [[]|]; split; congruence. Qed.

Lemma z_boolean_Some v b : z_boolean v = Some b ↔ v = Some (VBoolean b).
Proof. unfold z_boolean. destruct v as [[]|]; split; congruence. Qed.

Lemma z_date_Some v t : z_date v = Some t ↔ v = Some (VDate t).
Proof. unfold z_date. destruct v as [[]|]; split; congruence. Qed.

Lemma guard_Some {T} (test : T → bool) (o : option T) x :
  (y ← o; if test y then Some y else None) = Some x ↔ o = Some x ∧ test x = true.
Proof.
  destruct o as [y|]; simpl; [|split; [done|by intros [? _]]].
  destruct (test y) eqn:E; split.
  - by intros [= ->].
  - by intros [[= ->] _].
  - done.
  - intros [[= ->] ?]. congruence.
Qed.

Lemma z_min_length_Some k s v x :
  z_min_length k s v = Some x ↔ s v = Some x ∧ (k ≤ String.length x)%nat.
Proof.
  unfold z_min_length.
  rewrite (guard_Some (λ y, k <=? String.length y)%nat), Nat.leb_le. done.
Qed.

Lemma z_int_Some s v x :
  z_int s v = Some x ↔ s v = Some (Finite x) ∧ isInteger x = true.
Proof.
  unfold z_int. destruct (s v) as [[q|b]|]; simpl.
  - destruct (isInteger q) eqn:E; split.
    + by intros [= ->].
    + by intros [[= ->] _].
    + done.
    + intros [[= ->] ?]. congruence.
  - split; [done|by intros [? _]].
  - split; [done|by intros [? _]].
Qed.

Lemma z_min_Some k s v x :
  z_min k s v = Some x ↔ s v = Some x ∧ (k <= x)%Q.
Proof. unfold z_min. by rewrite (guard_Some (Qle_bool k)), Qle_bool_iff. Qed.

Lemma z_default_Some {T} (s : schema T) d v x :
  z_default s d v = Some x ↔ (v = None ∧ x = d) ∨ (v ≠ None ∧ s v = Some x).
Proof.
  unfold z_default. destruct v; split.
  - intros H. by right.
  - by intros [[? _]|[_ ?]].
  - intros [= ->]. by left.
  - intros [[_ ->]|[? _]]; done.
Qed.

Lemma z_optional_Some {T} (s : schema T) v o :
  z_optional s v = Some o ↔
  (v = None ∧ o = None) ∨ (∃ x, v ≠ None ∧ s v = Some x ∧ o = Some x).
Proof.
  unfold z_optional. destruct v as [v|]; split.
  - intros H. right. destruct (s (Some v)) as [x|]; [|done].
    injection H as <-. by exists x.
  - intros [[? _]|(x & _ & -> & ->)]; done.
  - intros [= <-]. by left.
  - intros [[_ ->]|(x & ? & _)]; done.
Qed.

Lemma flag_default_parsed raw key d b :
  z_default z_boolean d (raw !! key) = Some b → supplied_or_default raw key d b.
Proof.
  intros [[Hk ->]|[Hk Hb]]%z_default_Some; split; try congruence.
  apply z_boolean_Some in Hb. congruence.
Qed.

Lemma flag_optional_parsed raw key o :
  z_optional z_boolean (raw !! key) = Some o →
  supplied_or_default raw key false (default false o).
Proof.
  intros [[Hk ->]|(b & Hk & Hb & ->)]%z_optional_Some; split; simpl; try congruence.
  apply z_boolean_Some in Hb. congruence.
Qed.

Lemma createPreset_input_Some raw input :
  createPreset_input raw = Some input →
  z_min_length 1 z_string (raw !! "name")
    = Some (CreatePresetInput.name input) ∧
  z_min (4 # 1) (z_int z_number) (raw !! "length")
    = Some (CreatePresetInput.length input) ∧
  z_default z_boolean true (raw !! "includeLowercase")
    = Some (CreatePresetInput.includeLowercase input) ∧
  z_default z_boolean true (raw !! "includeUppercase")
    = Some (CreatePresetInput.includeUppercase input) ∧
  z_default z_boolean true (raw !! "includeNumbers")
    = Some (CreatePresetInput.includeNumbers input) ∧
  z_default z_boolean true (raw !! "includeSymbols")
    = Some (CreatePresetInput.includeSymbols input) ∧
  z_default z_boolean false (raw !! "excludeSimilar")
    = Some (CreatePresetInput.excludeSimilar input) ∧
  z_optional z_boolean (raw !! "isDefault")
    = Some (CreatePresetInput.isDefault input).
Proof.
  unfold createPreset_input. intros H. invert_object H. by repeat split.
Qed.

(** ** Inserts *)

Lemma existsb_key {A} (key : A → string) k (l : list A) :
  existsb (eq_ key k) l = false ↔ k ∉ key <$> l.
Proof.
  induction l as [|r l IH]; simpl.
  - split; [intros _; apply not_elem_of_nil|done].
  - rewrite orb_false_iff, IH, not_elem_of_cons. unfold eq_ at 1.
    rewrite bool_decide_eq_false. intuition congruence.
Qed.

Lemma safe_reads_back q : safe q → reads_back q = true.
Proof.
  intros [Hlow Hhigh]. unfold reads_back.
  rewrite (proj2 (Qle_bool_iff _ _) Hlow), (proj2 (Qle_bool_iff _ _) Hhigh).
  apply orb_true_r.
Qed.

Lemma length_safe q : (4 # 1 <= q)%Q → (q <= MAX_SAFE_INTEGER)%Q → safe q.
Proof.
  intros Hmin Hmax. split; [|done].
  apply Qle_trans with (4 # 1); [|done]. by vm_compute.
Qed.

Lemma insert_PasswordPresets_fresh row w :
  PasswordPreset.id row ∉ PasswordPreset.id <$> PasswordPresets (db w) →
  insert_PasswordPresets row w
  = (if PasswordPreset.readable row
     then Ok [PasswordPreset.stored row] else Err RangeError,
     {| db := {| PasswordPresets :=
                   PasswordPresets (db w) ++ [PasswordPreset.stored row];
                 GeneratedPasswords := GeneratedPasswords (db w) |};
        calls := calls w ++ [InsertPasswordPresets] |}).
Proof.
  intros Hfresh. unfold insert_PasswordPresets, hand_back.
  rewrite (proj2 (existsb_key _ _ _) Hfresh). simpl.
  change (PasswordPreset.readable (PasswordPreset.stored row))
    with (PasswordPreset.readable row).
  by rewrite andb_true_r.
Qed.

Lemma insert_GeneratedPasswords_fresh row w :
  GeneratedPassword.id row ∉ GeneratedPassword.id <$> GeneratedPasswords (db w) →
  references (GeneratedPassword.presetId row) (db w) = true →
  GeneratedPassword.bindable row = true →
  insert_GeneratedPasswords row w
  = (if GeneratedPassword.readable row
     then Ok [GeneratedPassword.stored row] else Err RangeError,
     {| db := {| PasswordPresets := PasswordPresets (db w);
                 GeneratedPasswords :=
                   GeneratedPasswords (db w) ++ [GeneratedPassword.stored row] |};
        calls := calls w ++ [InsertGeneratedPasswords] |}).
Proof.
  intros Hfresh Href Hbind. unfold insert_GeneratedPasswords, hand_back.
  rewrite Hbind, (proj2 (existsb_key _ _ _) Hfresh), Href. simpl.
  change (GeneratedPassword.readable (GeneratedPassword.stored row))
    with (GeneratedPassword.readable row).
  by rewrite andb_true_r.
Qed.

(** An id that is already taken is refused by the store; no row is written. *)
Example insert_taken_id_refused :
  insert_PasswordPresets Sample.bobs_preset Sample.world
  = (Err ConstraintError,
     {| db := db Sample.world; calls := [InsertPasswordPresets] |}).
Proof. reflexivity. Qed.

(** What a handler makes of the outcome of its insert or update. *)
Lemma createPreset_handler_signed_in input context u env w :
  caller context = Some u →
  createPreset_handler input context env w
  = bind (insert_PasswordPresets (createPreset_values input u env))
      (λ rows, ret {| success := true; data := {| preset := head rows |} |}) w.
Proof.
  intros Hu. unfold createPreset_handler, bind at 1.
  by rewrite (requireUser_signed_in _ _ _ Hu).
Qed.

Lemma createPreset_handler_Ok input context u env w res w' :
  caller context = Some u →
  createPreset_handler input context env w = (Ok res, w') →
  let r := PasswordPreset.stored (createPreset_values input u env) in
  res = {| success := true; data := {| preset := Some r |} |} ∧
  w' = {| db := {| PasswordPresets := PasswordPresets (db w) ++ [r];
                   GeneratedPasswords := GeneratedPasswords (db w) |};
          calls := calls w ++ [InsertPasswordPresets] |} ∧
  existsb (eq_ PasswordPreset.id (randomUUID env)) (PasswordPresets (db w)) = false ∧
  PasswordPreset.readable r = true.
Proof.
  intros Hu. rewrite (createPreset_handler_signed_in _ _ _ _ _ Hu).
  unfold bind, insert_PasswordPresets, hand_back, ret, issue. simpl.
  destruct (existsb _ _); [done|].
  destruct (PasswordPreset.readable _) eqn:Hread; [|done]. simpl.
  by intros [= <- <-].
Qed.

Lemma createPreset_Ok raw input context u env w res w' :
  caller context = Some u →
  createPreset_input raw = Some input →
  createPreset raw context env w = (Ok res, w') →
  let r := PasswordPreset.stored (createPreset_values input u env) in
  res = {| success := true; data := {| preset := Some r |} |} ∧
  w' = {| db := {| PasswordPresets := PasswordPresets (db w) ++ [r];
                   GeneratedPasswords := GeneratedPasswords (db w) |};
          calls := calls w ++ [InsertPasswordPresets] |} ∧
  existsb (eq_ PasswordPreset.id (randomUUID env)) (PasswordPresets (db w)) = false.
Proof.
  intros Hu Hvalid. unfold createPreset.
  rewrite (defineAction_valid _ _ _ _ _ _ Hvalid). intros Hrun.
  destruct (createPreset_handler_Ok _ _ _ _ _ _ _ Hu Hrun) as (? & ? & ? & _).
  done.
Qed.

Lemma getOwnedPreset_world presetId userId w :
  (getOwnedPreset presetId userId w).2
  = {| db := db w; calls := calls w ++ [SelectPasswordPresets] |}.
Proof.
  unfold getOwnedPreset, bind, select_PasswordPresets, hand_back, ret, throw, issue.
  destruct (forallb _ _); [|done]. simpl. by destruct (head _).
Qed.

(** The lookup hands a row back only when it is the first one matching and
    the client can read it. *)
Lemma getOwnedPreset_Ok presetId userId w p w1 :
  getOwnedPreset presetId userId w = (Ok p, w1) →
  w1 = {| db := db w; calls := calls w ++ [SelectPasswordPresets] |} ∧
  owned_preset presetId userId (db w) = Some p ∧
  PasswordPreset.readable p = true.
Proof.
  intros Hrun. pose proof (getOwnedPreset_world presetId userId w) as Hw.
  rewrite Hrun in Hw. simpl in Hw. split; [done|]. clear Hw. revert Hrun.
  unfold getOwnedPreset, bind, select_PasswordPresets, hand_back, ret, throw,
    owned_preset.
  destruct (forallb _ _) eqn:Hall; [|done]. simpl.
  destruct (List.filter _ _) as [|r rows]; simpl; [done|].
  intros [= <- _]. split; [done|]. simpl in Hall. by apply andb_true_iff in Hall as [? _].
Qed.

Lemma logGeneratedPassword_handler_signed_in input context u env w :
  caller context = Some u →
  let insert :=
    bind (insert_GeneratedPasswords (logGeneratedPassword_values input u env))
      (λ rows, ret {| success := true; data := {| password := head rows |} |}) in
  logGeneratedPassword_handler input context env w
  = match truthy (LogGeneratedPasswordInput.presetId input) with
    | Some pid =>
        match getOwnedPreset pid (user_id u) w with
        | (Ok _, w1) => insert w1
        | (Err e, w1) => (Err e, w1)
        end
    | None => insert w
    end.
Proof.
  intros Hu insert. unfold logGeneratedPassword_handler, bind at 1.
  rewrite (requireUser_signed_in _ _ _ Hu).
  destruct (truthy _) as [pid|]; [|done].
  unfold bind at 1 2. by destruct (getOwnedPreset _ _ _) as [[?|?] ?].
Qed.

Lemma logGeneratedPassword_handler_Ok input context u env w res w' :
  caller context = Some u →
  logGeneratedPassword_handler input context env w = (Ok res, w') →
  let r := GeneratedPassword.stored (logGeneratedPassword_values input u env) in
  res = {| success := true; data := {| password := Some r |} |} ∧
  db w' = {| PasswordPresets := PasswordPresets (db w);
             GeneratedPasswords := GeneratedPasswords (db w) ++ [r] |} ∧
  calls w' = calls w ++
             match truthy (LogGeneratedPasswordInput.presetId input) with
             | Some _ => [SelectPasswordPresets; InsertGeneratedPasswords]
             | None => [InsertGeneratedPasswords]
             end ∧
  existsb (eq_ GeneratedPassword.id (randomUUID env)) (GeneratedPasswords (db w))
  = false ∧
  references (LogGeneratedPasswordInput.presetId input) (db w) = true ∧
  GeneratedPassword.bindable r = true ∧
  GeneratedPassword.readable r = true ∧
  (∀ pid, truthy (LogGeneratedPasswordInput.presetId input) = Some pid →
          ∃ p, owned_preset pid (user_id u) (db w) = Some p ∧
               PasswordPreset.readable p = true).
Proof.
  intros Hu. rewrite (logGeneratedPassword_handler_signed_in _ _ _ _ _ Hu). cbv zeta.
  assert (∀ w0, db w0 = db w →
            bind (insert_GeneratedPasswords (logGeneratedPassword_values input u env))
              (λ rows, ret {| success := true; data := {| password := head rows |} |})
              w0 = (Ok res, w') →
            res = {| success := true;
                     data := {| password :=
                       Some (GeneratedPassword.stored
                               (logGeneratedPassword_values input u env)) |} |} ∧
            db w' = {| PasswordPresets := PasswordPresets (db w);
                       GeneratedPasswords :=
                         GeneratedPasswords (db w) ++
                         [GeneratedPassword.stored
                            (logGeneratedPassword_values input u env)] |} ∧
            calls w' = calls w0 ++ [InsertGeneratedPasswords] ∧
            existsb (eq_ GeneratedPassword.id (randomUUID env))
              (GeneratedPasswords (db w)) = false ∧
            references (LogGeneratedPasswordInput.presetId input) (db w) = true ∧
            GeneratedPassword.bindable
              (GeneratedPassword.stored (logGeneratedPassword_values input u env))
            = true ∧
            GeneratedPassword.readable
              (GeneratedPassword.stored (logGeneratedPassword_values input u env))
            = true) as Hinsert.
  { intros w0 Hdb.
    unfold bind, insert_GeneratedPasswords, hand_back, ret, issue. rewrite Hdb.
    destruct (GeneratedPassword.bindable _) eqn:Hbind; simpl; [|done].
    destruct (existsb _ _) eqn:Hfresh; simpl; [done|].
    destruct (references _ _) eqn:Href; simpl; [|done].
    destruct (GeneratedPassword.readable _) eqn:Hread; simpl; [|done].
    intros [= <- <-]. by split_and!. }
  destruct (truthy _) as [pid|] eqn:Hpid.
  - destruct (getOwnedPreset pid (user_id u) w) as [[p|e] w1] eqn:Hlookup; [|done].
    apply getOwnedPreset_Ok in Hlookup as (-> & Hp & Hread).
    intros Hrun. apply Hinsert in Hrun as (? & ? & Hcalls & ? & ? & ? & ?); [|done].
    simpl in Hcalls. rewrite <- app_assoc in Hcalls.
    split_and!; try done. intros ? [= <-]. by exists p.
  - intros Hrun. apply Hinsert in Hrun as (? & ? & ? & ? & ? & ? & ?); [|done].
    by split_and!.
Qed.

(** ** Creating a preset *)

(** C4: for a payload accepted by the createPreset schema (its name is a
    non-empty string and its length an integer that is at least 4) and a
    signed-in caller, whenever createPreset returns a record, that record is
    the row just appended to the presets table and has the supplied length
    (at least 4), the caller as owner, createdAt equal to updatedAt, and every
    flag equal to the supplied value or else its default (true for the four
    include flags, false for excludeSimilar and isDefault).  It does return a
    record whenever the generated id is fresh and the length is at most
    2^53 - 1. *)
Theorem createPreset_valid raw input context u env w :
  caller context = Some u →
  createPreset_input raw = Some input →
  (∀ res w',
     createPreset raw context env w = (Ok res, w') →
     ∃ r,
       res = {| success := true; data := {| preset := Some r |} |} ∧
       w' = {| db := {| PasswordPresets := PasswordPresets (db w) ++ [r];
                        GeneratedPasswords := GeneratedPasswords (db w) |};
               calls := calls w ++ [InsertPasswordPresets] |} ∧
       raw !! "length" = Some (VNumber (Finite (PasswordPreset.length r))) ∧
       isInteger (PasswordPreset.length r) = true ∧
       (4 # 1 <= PasswordPreset.length r)%Q ∧
       PasswordPreset.id r = randomUUID env ∧
       PasswordPreset.userId r = user_id u ∧
       PasswordPreset.createdAt r = PasswordPreset.updatedAt r ∧
       supplied_or_default raw "includeLowercase" true
         (PasswordPreset.includeLowercase r) ∧
       supplied_or_default raw "includeUppercase" true
         (PasswordPreset.includeUppercase r) ∧
       supplied_or_default raw "includeNumbers" true
         (PasswordPreset.includeNumbers r) ∧
       supplied_or_default raw "includeSymbols" true
         (PasswordPreset.includeSymbols r) ∧
       supplied_or_default raw "excludeSimilar" false
         (PasswordPreset.excludeSimilar r) ∧
       supplied_or_default raw "isDefault" false (PasswordPreset.isDefault r)) ∧
  (randomUUID env ∉ PasswordPreset.id <$> PasswordPresets (db w) →
   (CreatePresetInput.length input <= MAX_SAFE_INTEGER)%Q →
   ∃ res w', createPreset raw context env w = (Ok res, w')).
Proof.
  intros Hu Hvalid.
  destruct (createPreset_input_Some _ _ Hvalid)
    as (Hname & Hlen & Hlow & Hupp & Hnum & Hsym & Hsim & Hdef).
  apply z_min_Some in Hlen as [[Hlen%z_number_Some Hint]%z_int_Some Hmin].
  split.
  - intros res w' Hrun.
    destruct (createPreset_Ok _ _ _ _ _ _ _ _ Hu Hvalid Hrun) as (-> & -> & _).
    eexists. split; [reflexivity|]. split; [reflexivity|]. simpl.
    split_and!; try done;
      try (by apply flag_default_parsed); by apply flag_optional_parsed.
  - intros Hfresh Hmax. unfold createPreset.
    rewrite (defineAction_valid _ _ _ _ _ _ Hvalid),
      (createPreset_handler_signed_in _ _ _ _ _ Hu).
    unfold bind. rewrite insert_PasswordPresets_fresh; [|done].
    unfold PasswordPreset.readable. simpl.
    rewrite (safe_reads_back _ (length_safe _ Hmin Hmax)). by do 2 eexists.
Qed.

Lemma createPreset_valid_witness :
  ∃ r w',
    createPreset Sample.wifi Sample.alice Sample.env Sample.world
    = (Ok {| success := true; data := {| preset := Some r |} |}, w') ∧
    PasswordPreset.length r = 12 # 1 ∧
    PasswordPreset.userId r = "alice" ∧
    PasswordPreset.includeLowercase r = true ∧
    PasswordPreset.includeUppercase r = true ∧
    PasswordPreset.includeNumbers r = true ∧
    PasswordPreset.includeSymbols r = true ∧
    PasswordPreset.excludeSimilar r = false ∧
    PasswordPreset.isDefault r = false.
Proof.
  destruct (createPreset_valid Sample.wifi Sample.wifi_input Sample.alice
              {| user_id := "alice" |} Sample.env Sample.world)
    as [Hrecord Hsucceeds].
  - reflexivity.
  - vm_compute. reflexivity.
  - destruct Hsucceeds as (res & w' & Hrun).
    + apply (bool_decide_unpack _). vm_compute. exact I.
    + vm_compute. discriminate.
    + destruct (Hrecord res w' Hrun)
        as (r & -> & _ & Hlen & _ & _ & _ & Hown
              & _ & Hlow & Hupp & Hnum & Hsym & Hsim & Hdef).
      exists r, w'. split; [exact Hrun|].
      change (Sample.wifi !! "length") with (Some (VNumber (Finite (12 # 1)))) in Hlen.
      split_and!;
        [congruence | exact Hown
        | by apply Hlow | by apply Hupp | by apply Hnum | by apply Hsym
        | by apply Hsim | by apply Hdef].
Defined.

(** ** Updating a preset *)


Lemma primary_key_injective (l : list PasswordPreset.t) i j p r :
  NoDup (PasswordPreset.id <$> l) →
  l !! i = Some p → l !! j = Some r →
  PasswordPreset.id r = PasswordPreset.id p → r = p.
Proof.
  intros Hnd Hi Hj Hid.
  assert (i = j) as ->; [|congruence].
  eapply NoDup_lookup; [exact Hnd| |]; rewrite list_lookup_fmap.
  - by rewrite Hi.
  - rewrite Hj. simpl. by rewrite Hid.
Qed.





(** ** Listing *)

Lemma and_snoc {A} (filters : list (A → bool)) (g : A → bool) r :
  and_ (filters ++ [g]) r = and_ filters r && g r.
Proof. unfold and_. rewrite forallb_app. simpl. by rewrite andb_true_r. Qed.

Lemma filter_and_snoc {A} (filters : list (A → bool)) (g : A → bool) (l : list A) :
  List.filter (and_ (filters ++ [g])) l = List.filter g (List.filter (and_ filters) l).
Proof.
  induction l as [|r l IH]; simpl; [done|].
  rewrite and_snoc. destruct (and_ filters r); simpl; [|done].
  destruct (g r); by rewrite IH.
Qed.


Lemma hand_back_Ok {R} (readable : R → bool) rows rows' :
  hand_back readable rows = Ok rows' →
  rows' = rows ∧ forallb readable rows = true.
Proof. unfold hand_back. destruct (forallb _ _); [|done]. by intros [= <-]. Qed.

Lemma forallb_filter {R} (readable cond : R → bool) l :
  forallb readable l = true → forallb readable (List.filter cond l) = true.
Proof.
  intros Hall. apply forallb_forall. intros r [Hr _]%filter_In.
  by apply (proj1 (forallb_forall _ _) Hall).
Qed.

Lemma listPresets_handler_signed_in input context u env w :
  caller context = Some u →
  let presets :=
    List.filter
      (and_ ([eq_ PasswordPreset.userId (user_id u)] ++
             if defaultsOnly input then [eq_ PasswordPreset.isDefault true] else []))
      (PasswordPresets (db w)) in
  listPresets_handler input context env w
  = (match hand_back PasswordPreset.readable presets with
     | Ok rows => Ok (listing rows)
     | Err e => Err e
     end,
     {| db := db w; calls := calls w ++ [SelectPasswordPresets] |}).
Proof.
  intros Hu. unfold listPresets_handler, bind.
  rewrite (requireUser_signed_in _ _ _ Hu). unfold select_PasswordPresets.
  destruct (defaultsOnly input); simpl; by destruct (hand_back _ _).
Qed.

Lemma listGeneratedPasswords_handler_falsy input context u env w :
  caller context = Some u →
  truthy (presetId input) = None →
  listGeneratedPasswords_handler input context env w
  = (match hand_back GeneratedPassword.readable
             (passwords_of (user_id u) (db w)) with
     | Ok rows => Ok (listing rows)
     | Err e => Err e
     end,
     {| db := db w; calls := calls w ++ [SelectGeneratedPasswords] |}).
Proof.
  intros Hu Hfalsy. unfold listGeneratedPasswords_handler, bind.
  rewrite (requireUser_signed_in _ _ _ Hu), Hfalsy.
  unfold ret, select_GeneratedPasswords, passwords_of.
  assert (List.filter (and_ [eq_ GeneratedPassword.userId (user_id u)])
            (GeneratedPasswords (db w))
          = List.filter (eq_ GeneratedPassword.userId (user_id u))
              (GeneratedPasswords (db w))) as ->.
  { apply filter_ext. intros r. unfold and_. simpl. by rewrite andb_true_r. }
  by destruct (hand_back _ _).
Qed.

(** C6: for a signed-in caller and any store in which listPresets without
    defaultsOnly returns a list, listPresets with defaultsOnly set returns
    one too, and its items are exactly the items of the former that have
    isDefault = true, in the same order; in particular every item of the
    second list occurs in the first. *)
Theorem listPresets_defaultsOnly_restricts context u env w res w' :
  caller context = Some u →
  listPresets_handler {| defaultsOnly := false |} context env w = (Ok res, w') →
  ∃ all defaults,
    res = {| success := true;
             data := {| items := all; total := length all |} |} ∧
    listPresets_handler {| defaultsOnly := true |} context env w
    = (Ok {| success := true;
             data := {| items := defaults; total := length defaults |} |}, w') ∧
    defaults = List.filter PasswordPreset.isDefault all ∧
    defaults ⊆ all.
Proof.
  intros Hu. rewrite !(listPresets_handler_signed_in _ _ _ _ _ Hu). simpl.
  assert (∀ l : list PasswordPreset.t,
            List.filter (eq_ PasswordPreset.isDefault true) l
            = List.filter PasswordPreset.isDefault l) as Hflag.
  { intros l. apply filter_ext. intros r. unfold eq_.
    by destruct (PasswordPreset.isDefault r). }
  pose proof (filter_and_snoc [eq_ PasswordPreset.userId (user_id u)]
                (eq_ PasswordPreset.isDefault true) (PasswordPresets (db w))) as Hsnoc.
  simpl in Hsnoc. rewrite Hsnoc, Hflag. clear Hsnoc Hflag.
  destruct (hand_back _ (List.filter (and_ _) _)) as [rows|e] eqn:Hall; [|done].
  apply hand_back_Ok in Hall as [-> Hall]. intros [= <- <-].
  do 2 eexists. split; [reflexivity|].
  unfold hand_back. rewrite (forallb_filter _ _ _ Hall).
  split; [reflexivity|]. split; [done|].
  intros r [Hr _]%list_elem_of_In%filter_In. by apply list_elem_of_In.
Qed.

Lemma listPresets_defaultsOnly_restricts_witness :
  ∃ all defaults w',
    listPresets_handler {| defaultsOnly := false |} Sample.alice Sample.env Sample.world
    = (Ok {| success := true;
             data := {| items := all; total := length all |} |}, w') ∧
    listPresets_handler {| defaultsOnly := true |} Sample.alice Sample.env Sample.world
    = (Ok {| success := true;
             data := {| items := defaults; total := length defaults |} |}, w') ∧
    defaults = List.filter PasswordPreset.isDefault all ∧
    defaults ⊆ all.
Proof.
  edestruct (listPresets_defaultsOnly_restricts Sample.alice {| user_id := "alice" |}
               Sample.env Sample.world)
    as (all & defaults & Hres & Hdefaults & Hfilter & Hsubset).
  - reflexivity.
  - vm_compute. reflexivity.
  - injection Hres as <-. exists [Sample.alices_preset], defaults. eexists.
    split; [vm_compute; reflexivity|].
    split; [exact Hdefaults|]. split; [exact Hfilter|exact Hsubset].
Defined.

(** The claim as first worded, for every store, fails: once createPreset has
    written a preset whose length is 2^53, listPresets without defaultsOnly
    returns no list to its owner, while listPresets with defaultsOnly set
    does. *)
Lemma listPresets_fails_on_unreadable_preset :
  createPreset Scenario.vault Sample.alice Sample.env Sample.world
  = (Err RangeError, Scenario.after_vault) ∧
  (listPresets_handler {| defaultsOnly := false |}
     Sample.alice Sample.env Scenario.after_vault).1 = Err RangeError ∧
  (listPresets_handler {| defaultsOnly := true |}
     Sample.alice Sample.env Scenario.after_vault).1 = Ok (listing []).
Proof. split_and!; vm_compute; reflexivity. Qed.

(** C7: whenever listPresets or listGeneratedPasswords succeeds, the total it
    reports is the number of items it returns. *)
Theorem list_total_counts_items context env w :
  (∀ input res w',
     listPresets_handler input context env w = (Ok res, w') →
     total (data res) = length (items (data res))) ∧
  (∀ input res w',
     listGeneratedPasswords_handler input context env w = (Ok res, w') →
     total (data res) = length (items (data res))).
Proof.
  split; intros input res w'.
  - unfold listPresets_handler, bind, requireUser, ret, throw.
    destruct (locals context ≫= user); [|done].
    unfold select_PasswordPresets. destruct (hand_back _ _); [|done].
    by intros [= <- _].
  - unfold listGeneratedPasswords_handler, bind, requireUser, ret, throw.
    destruct (locals context ≫= user); [|done].
    destruct (truthy (presetId input)) as [pid|].
    + destruct (getOwnedPreset pid _ w) as [[?|?] ?]; [|done].
      unfold select_GeneratedPasswords. destruct (hand_back _ _); [|done].
      by intros [= <- _].
    + unfold select_GeneratedPasswords. destruct (hand_back _ _); [|done].
      by intros [= <- _].
Qed.

Lemma list_total_counts_items_witness :
  (∃ res w',
     listPresets_handler {| defaultsOnly := false |}
       Sample.alice Sample.env Sample.world = (Ok res, w') ∧
     total (data res) = length (items (data res))) ∧
  (∃ res w',
     listGeneratedPasswords_handler {| presetId := Some "a3c5e7f9-1b2d-4f60-8132-435465768798" |}
       Sample.alice Sample.env Sample.world = (Ok res, w') ∧
     total (data res) = length (items (data res))).
Proof.
  split; do 2 eexists; (split; [vm_compute; reflexivity|]).
  - eapply (proj1 (list_total_counts_items Sample.alice Sample.env Sample.world)
              {| defaultsOnly := false |}).
    vm_compute. reflexivity.
  - eapply (proj2 (list_total_counts_items Sample.alice Sample.env Sample.world)
              {| presetId := Some "a3c5e7f9-1b2d-4f60-8132-435465768798" |}).
    vm_compute. reflexivity.
Defined.

(** ** Ownership scoping *)




(** ** Logging a generated password *)

Lemma logGeneratedPassword_input_Some raw input :
  logGeneratedPassword_input raw = Some input →
  z_optional z_string (raw !! "presetId")
    = Some (LogGeneratedPasswordInput.presetId input) ∧
  z_optional z_boolean (raw !! "wasCopied")
    = Some (LogGeneratedPasswordInput.wasCopied input).
Proof.
  unfold logGeneratedPassword_input. intros H. invert_object H. by split.
Qed.

Lemma logGeneratedPassword_signed_in raw input context u env w :
  caller context = Some u →
  logGeneratedPassword_input raw = Some input →
  truthy (LogGeneratedPasswordInput.presetId input) = None →
  logGeneratedPassword raw context env w
  = bind (insert_GeneratedPasswords (logGeneratedPassword_values input u env))
      (λ rows, ret {| success := true; data := {| password := head rows |} |}) w.
Proof.
  intros Hu Hvalid Hfalsy. unfold logGeneratedPassword.
  rewrite (defineAction_valid _ _ _ _ _ _ Hvalid),
    (logGeneratedPassword_handler_signed_in _ _ _ _ _ Hu).
  by rewrite Hfalsy.
Qed.

Lemma safe_number_binds_and_reads_back (row : GeneratedPassword.t) :
  safe_number (GeneratedPassword.length row) →
  GeneratedPassword.bindable row = true ∧ GeneratedPassword.readable row = true.
Proof.
  unfold safe_number, GeneratedPassword.bindable, GeneratedPassword.readable.
  destruct (GeneratedPassword.length row) as [[q|b]|]; [|done..].
  intros Hsafe. split; [done|]. by apply safe_reads_back.
Qed.




(** ** The empty string as presetId *)

Lemma references_empty_id d :
  Forall (λ p, PasswordPreset.id p ≠ "") (PasswordPresets d) →
  references (Some "") d = false.
Proof.
  intros Hids. simpl. apply not_true_is_false. intros Hex.
  apply existsb_exists in Hex as (p & Hin & Hp).
  apply (proj1 (Forall_forall _ _) Hids p); [by apply list_elem_of_In|].
  unfold eq_ in Hp. by apply bool_decide_eq_true in Hp.
Qed.

(** C10: with presetId supplied as the empty string by a signed-in caller,
    logGeneratedPassword issues no ownership select and gives the empty
    string, not null, to the insert; in a well-formed store no preset has
    that id, so the insert is refused, the call fails and no record is
    created.  listGeneratedPasswords issues no ownership select either, and
    returns the rows filtered by userId only, when the client can read them
    all. *)
Theorem empty_presetId_skips_ownership raw context u env w :
  caller context = Some u →
  raw !! "presetId" = Some (VString "") →
  (∀ input,
     logGeneratedPassword_input raw = Some input →
     wf_db (db w) →
     GeneratedPassword.presetId (logGeneratedPassword_values input u env) = Some "" ∧
     logGeneratedPassword raw context env w
     = (Err match LogGeneratedPasswordInput.length input with
            | Some (Infinity _) => RangeError
            | _ => ConstraintError
            end,
        {| db := db w; calls := calls w ++ [InsertGeneratedPasswords] |})) ∧
  let mine :=
    List.filter (λ r, bool_decide (GeneratedPassword.userId r = user_id u))
      (GeneratedPasswords (db w)) in
  listGeneratedPasswords raw context env w
  = (if forallb GeneratedPassword.readable mine
     then Ok {| success := true; data := {| items := mine; total := length mine |} |}
     else Err RangeError,
     {| db := db w; calls := calls w ++ [SelectGeneratedPasswords] |}).
Proof.
  intros Hu Hempty. split.
  - intros input Hvalid [_ _ Hids].
    destruct (logGeneratedPassword_input_Some _ _ Hvalid) as [Hpid _].
    assert (LogGeneratedPasswordInput.presetId input = Some "") as Hsome.
    { rewrite Hempty in Hpid. simpl in Hpid. congruence. }
    split; [done|].
    rewrite (logGeneratedPassword_signed_in _ _ _ _ _ _ Hu Hvalid);
      [|by rewrite Hsome].
    unfold bind, insert_GeneratedPasswords, GeneratedPassword.bindable. simpl.
    rewrite Hsome, (references_empty_id _ Hids), orb_true_r.
    by destruct (LogGeneratedPasswordInput.length input) as [[q|b]|].
  - intros mine. unfold listGeneratedPasswords.
    rewrite (defineAction_valid _ _ _ {| presetId := Some "" |}).
    2:{ unfold listGeneratedPasswords_input. by rewrite Hempty. }
    rewrite (listGeneratedPasswords_handler_falsy _ _ _ _ _ Hu); [|done].
    unfold hand_back, passwords_of. fold (eq_ GeneratedPassword.userId (user_id u)).
    by destruct (forallb _ _).
Qed.

Lemma empty_presetId_skips_ownership_witness :
  logGeneratedPassword Sample.empty_presetId Sample.alice Sample.env Sample.world
  = (Err ConstraintError,
     {| db := db Sample.world; calls := [InsertGeneratedPasswords] |}) ∧
  listGeneratedPasswords Sample.empty_presetId Sample.alice Sample.env Sample.world
  = (Ok {| success := true;
           data := {| items := [Sample.alices_password]; total := 1 |} |},
     {| db := db Sample.world; calls := [SelectGeneratedPasswords] |}).
Proof.
  destruct (empty_presetId_skips_ownership Sample.empty_presetId Sample.alice
              {| user_id := "alice" |} Sample.env Sample.world)
    as [Hlog Hlist].
  - reflexivity.
  - reflexivity.
  - split; [|exact Hlist].
    edestruct Hlog as [_ Hrun].
    + vm_compute. reflexivity.
    + exact sample_world_wf.
    + exact Hrun.
Defined.

(** The claim as first worded fails twice.  No record with the empty string
    as presetId is created: the store refuses the row.  And once
    logGeneratedPassword has written an entry whose length is 2^53,
    listGeneratedPasswords returns no rows to its owner. *)
Lemma empty_presetId_is_refused :
  Sample.empty_presetId !! "presetId" = Some (VString "") ∧
  logGeneratedPassword Sample.empty_presetId Sample.alice Sample.env Sample.world
  = (Err ConstraintError,
     {| db := db Sample.world; calls := [InsertGeneratedPasswords] |}) ∧
  logGeneratedPassword Scenario.long_log Sample.alice Sample.env Sample.world
  = (Err RangeError, Scenario.after_long_log) ∧
  (listGeneratedPasswords Sample.empty_presetId
     Sample.alice Sample.env Scenario.after_long_log).1 = Err RangeError.
Proof. split_and!; vm_compute; reflexivity. Qed.

(** ** The store invariant is kept by every action *)

Section Preservation.
Lemma preserves_ret {A} (a : A) : preserves (ret a).
Proof. by intros w. Qed.

Lemma preserves_throw {A} e : preserves (@throw A e).
Proof. by intros w. Qed.

Lemma preserves_bind {A B} (m : M A) (k : A → M B) :
  preserves m → (∀ a, preserves (k a)) → preserves (bind m k).
Proof.
  intros Hm Hk w Hwf. unfold bind. specialize (Hm w Hwf).
  destruct (m w) as [[a|e] w1]; [by apply Hk|done].
Qed.

Lemma preserves_requireUser context : preserves (requireUser context).
Proof.
  unfold requireUser. destruct (locals context ≫= user);
    [apply preserves_ret|apply preserves_throw].
Qed.

Lemma preserves_select_PasswordPresets cond :
  preserves (select_PasswordPresets cond).
Proof. by intros w. Qed.

Lemma preserves_select_GeneratedPasswords cond :
  preserves (select_GeneratedPasswords cond).
Proof. by intros w. Qed.

Lemma preserves_getOwnedPreset presetId userId :
  preserves (getOwnedPreset presetId userId).
Proof.
  apply preserves_bind; [apply preserves_select_PasswordPresets|].
  intros rows. destruct (head rows); [apply preserves_ret|apply preserves_throw].
Qed.

Lemma NoDup_snoc_fresh {A} (key : A → string) (l : list A) row :
  NoDup (key <$> l) → key row ∉ key <$> l → NoDup (key <$> l ++ [row]).
Proof.
  intros Hnd Hfresh. rewrite fmap_app. apply NoDup_app. split_and!.
  - done.
  - intros k Hk [->|[]%elem_of_nil]%elem_of_cons. done.
  - apply NoDup_singleton.
Qed.

Lemma preserves_insert_PasswordPresets row :
  PasswordPreset.id row ≠ "" → preserves (insert_PasswordPresets row).
Proof.
  intros Hid w [Hpk Hpk' Hids]. unfold insert_PasswordPresets.
  destruct (existsb _ _) eqn:E; simpl; [done|].
  apply existsb_key in E. split; simpl.
  - by apply NoDup_snoc_fresh.
  - done.
  - apply Forall_app. split; [done|]. by apply Forall_singleton.
Qed.

Lemma preserves_insert_GeneratedPasswords row :
  preserves (insert_GeneratedPasswords row).
Proof.
  intros w [Hpk Hpk' Hids]. unfold insert_GeneratedPasswords.
  destruct (negb (GeneratedPassword.bindable row)); simpl; [done|].
  destruct (existsb _ _) eqn:E; simpl; [done|].
  destruct (negb _); simpl; [done|].
  apply existsb_key in E. split; simpl; [done| |done].
  by apply NoDup_snoc_fresh.
Qed.

Lemma preserves_update_PasswordPresets s cond :
  preserves (update_PasswordPresets s cond).
Proof.
  intros w [Hpk Hpk' Hids]. unfold update_PasswordPresets. simpl.
  split; simpl; [| done |].
  - rewrite <- list_fmap_compose.
    erewrite list_fmap_ext; [exact Hpk|].
    intros i r _. simpl. by destruct (cond r).
  - apply Forall_fmap. eapply Forall_impl; [exact Hids|].
    intros r Hr. simpl. by destruct (cond r).
Qed.

Context (context : ActionAPIContext) (env : Env).
Hypothesis uuid_nonempty : randomUUID env ≠ "".

Lemma createPreset_preserves input :
  preserves (createPreset_handler input context env).
Proof.
  apply preserves_bind; [apply preserves_requireUser|]. intros u.
  apply preserves_bind; [by apply preserves_insert_PasswordPresets|].
  intros rows. apply preserves_ret.
Qed.

Lemma updatePreset_preserves input :
  preserves (updatePreset_handler input context env).
Proof.
  apply preserves_bind; [apply preserves_requireUser|]. intros u.
  apply preserves_bind; [apply preserves_getOwnedPreset|]. intros _.
  apply preserves_bind; [apply preserves_update_PasswordPresets|].
  intros rows. apply preserves_ret.
Qed.

Lemma listPresets_preserves input :
  preserves (listPresets_handler input context env).
Proof.
  apply preserves_bind; [apply preserves_requireUser|]. intros u.
  apply preserves_bind; [apply preserves_select_PasswordPresets|].
  intros rows. apply preserves_ret.
Qed.

Lemma logGeneratedPassword_preserves input :
  preserves (logGeneratedPassword_handler input context env).
Proof.
  apply preserves_bind; [apply preserves_requireUser|]. intros u.
  apply preserves_bind.
  { destruct (truthy _); [|apply preserves_ret].
    apply preserves_bind; [apply preserves_getOwnedPreset|].
    intros _. apply preserves_ret. }
  intros _. apply preserves_bind; [apply preserves_insert_GeneratedPasswords|].
  intros rows. apply preserves_ret.
Qed.

Lemma listGeneratedPasswords_preserves input :
  preserves (listGeneratedPasswords_handler input context env).
Proof.
  apply preserves_bind; [apply preserves_requireUser|]. intros u.
  apply preserves_bind.
  { destruct (truthy _); [|apply preserves_ret].
    apply preserves_bind; [apply preserves_getOwnedPreset|].
    intros _. apply preserves_ret. }
  intros filters.
  apply preserves_bind; [apply preserves_select_GeneratedPasswords|].
  intros rows. apply preserves_ret.
Qed.

Lemma defineAction_preserves {I O} (schema : payload → option I)
    (handler : I → ActionAPIContext → Env → M O) raw :
  (∀ input, preserves (handler input context env)) →
  preserves (defineAction schema handler raw context env).
Proof.
  intros Hhandler. unfold defineAction.
  destruct (schema raw); [apply Hhandler|apply preserves_throw].
Qed.
End Preservation.

Lemma empty_db_wf : wf_db {| PasswordPresets := []; GeneratedPasswords := [] |}.
Proof. split; simpl; [apply NoDup_nil_2..|apply Forall_nil_2]. Qed.

(** * Further properties of the actions *)

(** ** Failures, reads and writes *)

(** X1: an action that fails leaves both tables exactly as they were, unless
    it fails with a RangeError; the two list actions leave them as they were
    even then. *)
Theorem failed_action_leaves_tables raw context env w :
  (∀ e w', createPreset raw context env w = (Err e, w') →
           e ≠ RangeError → db w' = db w) ∧
  (∀ e w', updatePreset raw context env w = (Err e, w') →
           e ≠ RangeError → db w' = db w) ∧
  (∀ e w', listPresets raw context env w = (Err e, w') → db w' = db w) ∧
  (∀ e w', logGeneratedPassword raw context env w = (Err e, w') →
           e ≠ RangeError → db w' = db w) ∧
  (∀ e w', listGeneratedPasswords raw context env w = (Err e, w') → db w' = db w).
Proof.
  split_and!; intros e w'; unfold_actions; case_outcome;
    by intros [= <- <-].
Qed.

Lemma failed_action_leaves_tables_witness :
  ∃ e w',
    logGeneratedPassword
      {[ "presetId" := VString (PasswordPreset.id Sample.bobs_preset) ]}
      Sample.alice Sample.env Sample.world = (Err e, w') ∧
    db w' = db Sample.world.
Proof.
  destruct (failed_action_leaves_tables
              {[ "presetId" := VString (PasswordPreset.id Sample.bobs_preset) ]}
              Sample.alice Sample.env Sample.world) as (_ & _ & _ & Hlog & _).
  do 2 eexists. split; [vm_compute; reflexivity|].
  eapply Hlog; [vm_compute; reflexivity|discriminate].
Defined.

(** X2: the two list actions are read-only: whatever the payload, the caller
    and the outcome, both tables are unchanged and no insert or update is
    issued. *)
Theorem list_actions_read_only raw context env w :
  db (listPresets raw context env w).2 = db w ∧
  only_reads w (listPresets raw context env w).2 ∧
  db (listGeneratedPasswords raw context env w).2 = db w ∧
  only_reads w (listGeneratedPasswords raw context env w).2.
Proof.
  unfold only_reads.
  split_and!; unfold_actions; case_outcome; simpl; try done;
    rewrite <- ?app_assoc;
    first [ by exists []; rewrite app_nil_r
          | eexists; split; [reflexivity|]; by repeat constructor ].
Qed.

(** X3: every action issues at most two database calls, of which at most one
    is an insert or update. *)
Theorem at_most_one_write raw context env w :
  bounded_calls w (createPreset raw context env w).2 ∧
  bounded_calls w (updatePreset raw context env w).2 ∧
  bounded_calls w (listPresets raw context env w).2 ∧
  bounded_calls w (logGeneratedPassword raw context env w).2 ∧
  bounded_calls w (listGeneratedPasswords raw context env w).2.
Proof.
  unfold bounded_calls.
  split_and!; unfold_actions; case_outcome; simpl; rewrite <- ?app_assoc;
    first [ exists []; rewrite app_nil_r; simpl; split_and!; [done|lia|lia]
          | eexists; split; [reflexivity|]; simpl; split; lia ].
Qed.

(** X4: updatePreset never adds, removes or reorders rows and never changes
    the id, the owner or the creation time of any row, whatever the payload,
    the caller and the outcome; the password log is untouched. *)
Theorem updatePreset_keeps_identity raw context env w :
  PasswordPreset.id <$> PasswordPresets (db (updatePreset raw context env w).2)
    = PasswordPreset.id <$> PasswordPresets (db w) ∧
  PasswordPreset.userId <$> PasswordPresets (db (updatePreset raw context env w).2)
    = PasswordPreset.userId <$> PasswordPresets (db w) ∧
  PasswordPreset.createdAt <$> PasswordPresets (db (updatePreset raw context env w).2)
    = PasswordPreset.createdAt <$> PasswordPresets (db w) ∧
  GeneratedPasswords (db (updatePreset raw context env w).2)
    = GeneratedPasswords (db w).
Proof.
  assert (∀ (s : PasswordPreset.set) cond (l : list PasswordPreset.t) {B}
            (col : PasswordPreset.t → B),
            (∀ r, col (PasswordPreset.apply_set s r) = col r) →
            col <$> map (λ r, if cond r : bool then PasswordPreset.apply_set s r else r) l
            = col <$> l) as Hcol.
  { intros s cond l B col Hsame. rewrite <- list_fmap_compose.
    apply list_fmap_ext. intros i r _. simpl. by destruct (cond r). }
  split_and!; unfold_actions; case_outcome; simpl; try done;
    by apply Hcol.
Qed.

(** X5: createPreset and logGeneratedPassword only ever append: whatever the
    outcome, the rows present before the call are still there, unchanged and
    in the same order, followed by at most one new row; the other table is
    untouched. *)
Theorem inserts_only_append raw context env w :
  GeneratedPasswords (db (createPreset raw context env w).2)
    = GeneratedPasswords (db w) ∧
  (∃ new, PasswordPresets (db (createPreset raw context env w).2)
          = PasswordPresets (db w) ++ new ∧ (length new ≤ 1)%nat) ∧
  PasswordPresets (db (logGeneratedPassword raw context env w).2)
    = PasswordPresets (db w) ∧
  (∃ new, GeneratedPasswords (db (logGeneratedPassword raw context env w).2)
          = GeneratedPasswords (db w) ++ new ∧ (length new ≤ 1)%nat).
Proof.
  split_and!; unfold_actions; case_outcome; simpl; try done;
    first [ exists []; rewrite app_nil_r; simpl; split; [done|lia]
          | eexists; split; [reflexivity|simpl; lia] ].
Qed.

(** ** The ownership lookup *)

Lemma head_filter_Some {A} (cond : A → bool) (l : list A) p :
  head (List.filter cond l) = Some p → p ∈ l ∧ cond p = true.
Proof.
  intros Hhead.
  assert (p ∈ List.filter cond l) as Hin.
  { destruct (List.filter cond l); [done|]. injection Hhead as ->. apply list_elem_of_here. }
  apply list_elem_of_In, filter_In in Hin as [Hin Hp]. by rewrite list_elem_of_In.
Qed.

Lemma head_filter_None {A} (cond : A → bool) (l : list A) :
  head (List.filter cond l) = None → Forall (λ r, cond r = false) l.
Proof.
  intros Hhead. apply Forall_forall. intros r Hr.
  destruct (cond r) eqn:E; [|done].
  assert (r ∈ List.filter cond l) as Hin.
  { apply list_elem_of_In, filter_In. by rewrite <- list_elem_of_In. }
  destruct (List.filter cond l); [by apply elem_of_nil in Hin|done].
Qed.

Lemma head_filter_is_Some {A} (cond : A → bool) (l : list A) r :
  r ∈ l → cond r = true → is_Some (head (List.filter cond l)).
Proof.
  intros Hr Hc.
  assert (r ∈ List.filter cond l) as Hin.
  { apply list_elem_of_In, filter_In. by rewrite <- list_elem_of_In. }
  destruct (List.filter cond l); [by apply elem_of_nil in Hin|by eexists].
Qed.

Lemma forallb_false {A} (f : A → bool) (l : list A) :
  forallb f l = false → ∃ r, In r l ∧ f r = false.
Proof.
  induction l as [|r l IH]; simpl; [done|].
  destruct (f r) eqn:E; simpl.
  - intros (r' & ? & ?)%IH. exists r'. tauto.
  - intros _. exists r. tauto.
Qed.

(** X6: getOwnedPreset is a read. When it returns a preset, that preset is a
    row of the table with the requested id and the requested owner, and one
    the client can read; when it fails, either the error is NOT_FOUND and no
    row has both that id and that owner, or it is a RangeError and a row with
    that id and that owner holds a length the client cannot read. *)
Theorem getOwnedPreset_sound_and_complete presetId userId w :
  (getOwnedPreset presetId userId w).2
  = {| db := db w; calls := calls w ++ [SelectPasswordPresets] |} ∧
  match (getOwnedPreset presetId userId w).1 with
  | Ok p =>
      p ∈ PasswordPresets (db w) ∧
      PasswordPreset.id p = presetId ∧ PasswordPreset.userId p = userId ∧
      PasswordPreset.readable p = true
  | Err e =>
      (e = ActionError NOT_FOUND ∧
       Forall (λ p, ¬ (PasswordPreset.id p = presetId ∧
                       PasswordPreset.userId p = userId))
         (PasswordPresets (db w))) ∨
      (e = RangeError ∧
       ∃ p, p ∈ PasswordPresets (db w) ∧
            PasswordPreset.id p = presetId ∧ PasswordPreset.userId p = userId ∧
            PasswordPreset.readable p = false)
  end.
Proof.
  split; [apply getOwnedPreset_world|].
  destruct (getOwnedPreset presetId userId w) as [[p|e] w1] eqn:Hrun; simpl.
  - apply getOwnedPreset_Ok in Hrun as (_ & Hhead & Hread).
    apply head_filter_Some in Hhead as [Hin Hp].
    apply owned_filter_true in Hp. tauto.
  - revert Hrun.
    unfold getOwnedPreset, bind, select_PasswordPresets, hand_back, ret, throw.
    destruct (forallb _ _) eqn:Hall.
    + destruct (head _) eqn:Hhead; simpl; [done|]. intros [= <- _]. left.
      split; [done|]. apply head_filter_None in Hhead.
      eapply Forall_impl; [exact Hhead|]. intros p Hp Hboth. cbv beta in Hp.
      apply owned_filter_true in Hboth. congruence.
    + intros [= <- _]. right. split; [done|].
      apply forallb_false in Hall as (p & [Hin Hp]%filter_In & Hunread).
      exists p. apply owned_filter_true in Hp as [? ?].
      split_and!; try done. by apply list_elem_of_In.
Qed.

(** X7: when no preset has the given id, updatePreset on that id fails with
    NOT_FOUND, and so do logGeneratedPassword and listGeneratedPasswords with
    that id as presetId provided it is not the empty string; only the
    ownership select is issued and both tables are unchanged. *)
Theorem missing_preset_not_found context u env w pid :
  caller context = Some u →
  pid ∉ PasswordPreset.id <$> PasswordPresets (db w) →
  (∀ input, UpdatePresetInput.id input = pid →
     updatePreset_handler input context env w = denied w) ∧
  (pid ≠ "" →
   (∀ input, LogGeneratedPasswordInput.presetId input = Some pid →
      logGeneratedPassword_handler input context env w = denied w) ∧
   (∀ input, presetId input = Some pid →
      listGeneratedPasswords_handler input context env w = denied w)).
Proof.
  intros Hu Hmissing.
  assert (Forall (λ r, PasswordPreset.id r = pid →
                       PasswordPreset.userId r ≠ user_id u)
            (PasswordPresets (db w))) as Hnone.
  { apply Forall_forall. intros r Hr Hid. destruct Hmissing.
    rewrite <- Hid. by apply list_elem_of_fmap_2. }
  split; [|intros Hpid; split]; intros input Hinput; unfold denied.
  - unfold updatePreset_handler, bind.
    rewrite (requireUser_signed_in _ _ _ Hu), Hinput.
    by rewrite (getOwnedPreset_missing _ _ _ Hnone).
  - unfold logGeneratedPassword_handler, bind.
    rewrite (requireUser_signed_in _ _ _ Hu), Hinput, (truthy_nonempty _ Hpid).
    by rewrite (getOwnedPreset_missing _ _ _ Hnone).
  - unfold listGeneratedPasswords_handler, bind.
    rewrite (requireUser_signed_in _ _ _ Hu), Hinput, (truthy_nonempty _ Hpid).
    by rewrite (getOwnedPreset_missing _ _ _ Hnone).
Qed.

Lemma missing_preset_not_found_witness :
  (∀ input, UpdatePresetInput.id input = "no-such-preset" →
     updatePreset_handler input Sample.alice Sample.env Sample.world
     = denied Sample.world) ∧
  (∀ input, LogGeneratedPasswordInput.presetId input = Some "no-such-preset" →
     logGeneratedPassword_handler input Sample.alice Sample.env Sample.world
     = denied Sample.world) ∧
  (∀ input, presetId input = Some "no-such-preset" →
     listGeneratedPasswords_handler input Sample.alice Sample.env Sample.world
     = denied Sample.world).
Proof.
  destruct (missing_preset_not_found Sample.alice {| user_id := "alice" |}
              Sample.env Sample.world "no-such-preset") as [Hupdate Hrest].
  - reflexivity.
  - apply (bool_decide_unpack _). vm_compute. exact I.
  - split; [exact Hupdate|]. apply Hrest. discriminate.
Defined.

(** X8: a successful createPreset, updatePreset or logGeneratedPassword always
    carries success = true and an actual record (never an undefined one), and
    that record is a row of the table after the call. *)
Theorem success_returns_stored_record raw context env w :
  (∀ res w', createPreset raw context env w = (Ok res, w') →
     success res = true ∧
     ∃ r, preset (data res) = Some r ∧ r ∈ PasswordPresets (db w')) ∧
  (∀ res w', updatePreset raw context env w = (Ok res, w') →
     success res = true ∧
     ∃ r, preset (data res) = Some r ∧ r ∈ PasswordPresets (db w')) ∧
  (∀ res w', logGeneratedPassword raw context env w = (Ok res, w') →
     success res = true ∧
     ∃ r, password (data res) = Some r ∧ r ∈ GeneratedPasswords (db w')).
Proof.
  split_and!; intros res w'; unfold_actions; case_outcome; try done;
    intros [= <- <-]; (split; [done|]); simpl.
  - eexists. split; [reflexivity|]. apply elem_of_app. right. apply list_elem_of_here.
  - match goal with H : head _ = Some _ |- _ =>
      apply head_filter_Some in H as [Hin [Hid _]%owned_filter_true] end.
    destruct (head_filter_is_Some
                (eq_ PasswordPreset.id (UpdatePresetInput.id t))
                (PasswordPresets (db w)) _ Hin) as [q Hq].
    { unfold eq_. by apply bool_decide_eq_true. }
    pose proof Hq as [Hqin Hqid]%head_filter_Some.
    destruct (List.filter (eq_ PasswordPreset.id _) _) as [|q' l]; [done|].
    injection Hq as ->.
    eexists. split; [reflexivity|].
    apply list_elem_of_fmap. exists q. by rewrite Hqid.
  - eexists. split; [reflexivity|]. apply elem_of_app. right. apply list_elem_of_here.
  - eexists. split; [reflexivity|]. apply elem_of_app. right. apply list_elem_of_here.
Qed.

Lemma success_returns_stored_record_witness :
  ∃ res w' r,
    updatePreset Sample.longer Sample.alice Sample.env Sample.world = (Ok res, w') ∧
    success res = true ∧ preset (data res) = Some r ∧ r ∈ PasswordPresets (db w').
Proof.
  destruct (success_returns_stored_record Sample.longer Sample.alice Sample.env
              Sample.world) as (_ & Hupdate & _).
  edestruct Hupdate as (Hsuccess & r & Hr & Hin); [vm_compute; reflexivity|].
  do 3 eexists. split; [vm_compute; reflexivity|].
  split; [exact Hsuccess|]. split; [exact Hr|exact Hin].
Defined.

(** X9: when the generated id is already the id of a row, a signed-in
    createPreset with an accepted payload, and a signed-in
    logGeneratedPassword with an accepted payload and no presetId, fail: the
    insert is issued but no row is written.  The store refuses the row,
    unless the length of the log entry is infinite, which the client refuses
    first. *)
Theorem taken_id_refused raw context u env w :
  caller context = Some u →
  (∀ input, createPreset_input raw = Some input →
     randomUUID env ∈ PasswordPreset.id <$> PasswordPresets (db w) →
     createPreset raw context env w
     = (Err ConstraintError,
        {| db := db w; calls := calls w ++ [InsertPasswordPresets] |})) ∧
  (∀ input, logGeneratedPassword_input raw = Some input →
     raw !! "presetId" = None →
     randomUUID env ∈ GeneratedPassword.id <$> GeneratedPasswords (db w) →
     logGeneratedPassword raw context env w
     = (Err match LogGeneratedPasswordInput.length input with
            | Some (Infinity _) => RangeError
            | _ => ConstraintError
            end,
        {| db := db w; calls := calls w ++ [InsertGeneratedPasswords] |})).
Proof.
  intros Hu. split; intros input Hvalid.
  - intros Htaken. unfold createPreset.
    rewrite (defineAction_valid _ _ _ _ _ _ Hvalid).
    unfold createPreset_handler, bind. rewrite (requireUser_signed_in _ _ _ Hu).
    unfold insert_PasswordPresets. simpl.
    destruct (existsb _ _) eqn:E; [done|].
    by apply existsb_key in E.
  - intros Hunset Htaken.
    destruct (logGeneratedPassword_input_Some _ _ Hvalid) as [Hpid _].
    assert (LogGeneratedPasswordInput.presetId input = None) as Hnone.
    { apply z_optional_Some in Hpid as [[_ ?]|(? & ? & _)]; done. }
    rewrite (logGeneratedPassword_signed_in _ _ _ _ _ _ Hu Hvalid);
      [|by rewrite Hnone].
    unfold bind, insert_GeneratedPasswords, GeneratedPassword.bindable. simpl.
    destruct (existsb _ _) eqn:E; [|by apply existsb_key in E]. simpl.
    by destruct (LogGeneratedPasswordInput.length input) as [[q|b]|].
Qed.

(** ** What each schema accepts *)

Lemma required_name_accepts v :
  is_Some (z_min_length 1 z_string v) ↔ ∃ n, v = Some (VString n) ∧ n ≠ "".
Proof.
  split.
  - intros [n [Hn%z_string_Some Hlen]%z_min_length_Some]. exists n. split; [done|].
    intros ->. simpl in Hlen. lia.
  - intros (n & -> & Hn). exists n. apply z_min_length_Some. split; [done|].
    destruct n; [done|simpl; lia].
Qed.

Lemma length_accepts v :
  is_Some (z_min (4 # 1) (z_int z_number) v) ↔ ∃ x, v = Some x ∧ is_length x.
Proof.
  split.
  - intros [q [[Hq%z_number_Some Hint]%z_int_Some Hmin]%z_min_Some].
    eexists. split; [done|]. by exists q.
  - intros (x & -> & q & -> & Hint & Hmin). exists q.
    apply z_min_Some. split; [|done]. by apply z_int_Some.
Qed.

Lemma z_default_accepts {T} (s : schema T) d (kind : value → Prop) raw key :
  (∀ v, is_Some (s (Some v)) ↔ kind v) →
  is_Some (z_default s d (raw !! key)) ↔ absent_or kind raw key.
Proof.
  intros Hkind. unfold absent_or, z_default.
  destruct (raw !! key) as [v|]; [apply Hkind|]. split; [done|by eexists].
Qed.

Lemma z_optional_accepts {T} (s : schema T) (kind : value → Prop) raw key :
  (∀ v, is_Some (s (Some v)) ↔ kind v) →
  is_Some (z_optional s (raw !! key)) ↔ absent_or kind raw key.
Proof.
  intros Hkind. unfold absent_or, z_optional.
  destruct (raw !! key) as [v|]; [|split; [done|by eexists]].
  rewrite <- Hkind, fmap_is_Some. done.
Qed.

Lemma z_string_kind v : is_Some (z_string (Some v)) ↔ is_string v.
Proof.
  unfold is_string. split.
  - intros [s Hs%z_string_Some]. exists s. congruence.
  - intros [s ->]. by eexists.
Qed.

Lemma z_boolean_kind v : is_Some (z_boolean (Some v)) ↔ is_boolean v.
Proof.
  unfold is_boolean. split.
  - intros [s Hs%z_boolean_Some]. exists s. congruence.
  - intros [s ->]. by eexists.
Qed.

Lemma z_number_kind v : is_Some (z_number (Some v)) ↔ is_number v.
Proof.
  unfold is_number. split.
  - intros [s Hs%z_number_Some]. exists s. congruence.
  - intros [s ->]. by eexists.
Qed.

Lemma z_date_kind v : is_Some (z_date (Some v)) ↔ is_date v.
Proof.
  unfold is_date. split.
  - intros [s Hs%z_date_Some]. exists s. congruence.
  - intros [s ->]. by eexists.
Qed.

Lemma z_length_kind v :
  is_Some (z_min (4 # 1) (z_int z_number) (Some v)) ↔ is_length v.
Proof.
  rewrite length_accepts. split.
  - by intros (x & [= <-] & Hx).
  - intros Hv. by exists v.
Qed.

Lemma createPreset_input_is_Some raw :
  is_Some (createPreset_input raw) ↔
  is_Some (z_min_length 1 z_string (raw !! "name")) ∧
  is_Some (z_min (4 # 1) (z_int z_number) (raw !! "length")) ∧
  is_Some (z_default z_boolean true (raw !! "includeLowercase")) ∧
  is_Some (z_default z_boolean true (raw !! "includeUppercase")) ∧
  is_Some (z_default z_boolean true (raw !! "includeNumbers")) ∧
  is_Some (z_default z_boolean true (raw !! "includeSymbols")) ∧
  is_Some (z_default z_boolean false (raw !! "excludeSimilar")) ∧
  is_Some (z_optional z_string (raw !! "customSymbols")) ∧
  is_Some (z_optional z_string (raw !! "notes")) ∧
  is_Some (z_optional z_boolean (raw !! "isDefault")).
Proof. unfold createPreset_input. split_object. Qed.

Lemma updatePreset_object_is_Some raw :
  is_Some (updatePreset_object raw) ↔
  is_Some (z_min_length 1 z_string (raw !! "id")) ∧
  is_Some (z_optional z_string (raw !! "name")) ∧
  is_Some (z_optional (z_min (4 # 1) (z_int z_number)) (raw !! "length")) ∧
  is_Some (z_optional z_boolean (raw !! "includeLowercase")) ∧
  is_Some (z_optional z_boolean (raw !! "includeUppercase")) ∧
  is_Some (z_optional z_boolean (raw !! "includeNumbers")) ∧
  is_Some (z_optional z_boolean (raw !! "includeSymbols")) ∧
  is_Some (z_optional z_boolean (raw !! "excludeSimilar")) ∧
  is_Some (z_optional z_string (raw !! "customSymbols")) ∧
  is_Some (z_optional z_string (raw !! "notes")) ∧
  is_Some (z_optional z_boolean (raw !! "isDefault")).
Proof. unfold updatePreset_object. split_object. Qed.

Lemma logGeneratedPassword_input_is_Some raw :
  is_Some (logGeneratedPassword_input raw) ↔
  is_Some (z_optional z_string (raw !! "presetId")) ∧
  is_Some (z_optional z_string (raw !! "encryptedValue")) ∧
  is_Some (z_optional z_string (raw !! "hintLabel")) ∧
  is_Some (z_optional z_number (raw !! "length")) ∧
  is_Some (z_optional z_boolean (raw !! "wasCopied")) ∧
  is_Some (z_optional z_date (raw !! "lastCopiedAt")).
Proof. unfold logGeneratedPassword_input. split_object. Qed.

Lemma updatePreset_object_Some raw input :
  updatePreset_object raw = Some input →
  z_min_length 1 z_string (raw !! "id") = Some (UpdatePresetInput.id input) ∧
  z_optional z_string (raw !! "name") = Some (UpdatePresetInput.name input) ∧
  z_optional (z_min (4 # 1) (z_int z_number)) (raw !! "length")
    = Some (UpdatePresetInput.length input) ∧
  z_optional z_boolean (raw !! "includeLowercase")
    = Some (UpdatePresetInput.includeLowercase input) ∧
  z_optional z_boolean (raw !! "includeUppercase")
    = Some (UpdatePresetInput.includeUppercase input) ∧
  z_optional z_boolean (raw !! "includeNumbers")
    = Some (UpdatePresetInput.includeNumbers input) ∧
  z_optional z_boolean (raw !! "includeSymbols")
    = Some (UpdatePresetInput.includeSymbols input) ∧
  z_optional z_boolean (raw !! "excludeSimilar")
    = Some (UpdatePresetInput.excludeSimilar input) ∧
  z_optional z_string (raw !! "customSymbols")
    = Some (UpdatePresetInput.customSymbols input) ∧
  z_optional z_string (raw !! "notes") = Some (UpdatePresetInput.notes input) ∧
  z_optional z_boolean (raw !! "isDefault")
    = Some (UpdatePresetInput.isDefault input).
Proof.
  unfold updatePreset_object. intros H. invert_object H. by split_and!.
Qed.

Lemma z_optional_defined {T} (s : schema T) v o :
  z_optional s v = Some o → defined o = true ↔ is_Some v.
Proof.
  intros [[-> ->]|(x & Hv & _ & ->)]%z_optional_Some; simpl.
  - split; [done|]. by intros []%is_Some_None.
  - split; [|done]. intros _. by destruct v.
Qed.

Lemma updatePreset_refine_keys raw input :
  updatePreset_object raw = Some input →
  updatePreset_refine input = true ↔
  Exists (λ k, is_Some (raw !! k)) updatePreset_optional_keys.
Proof.
  intros (_ & H1 & H2 & H3 & H4 & H5 & H6 & H7 & H8 & H9 & H10)%updatePreset_object_Some.
  unfold updatePreset_refine, updatePreset_optional_keys.
  rewrite !orb_true_iff, !Exists_cons, Exists_nil.
  rewrite (z_optional_defined _ _ _ H1), (z_optional_defined _ _ _ H2),
    (z_optional_defined _ _ _ H3), (z_optional_defined _ _ _ H4),
    (z_optional_defined _ _ _ H5), (z_optional_defined _ _ _ H6),
    (z_optional_defined _ _ _ H7), (z_optional_defined _ _ _ H8),
    (z_optional_defined _ _ _ H9), (z_optional_defined _ _ _ H10).
  tauto.
Qed.

Lemma createPreset_input_accepts raw :
  is_Some (createPreset_input raw) ↔ createPreset_accepts raw.
Proof.
  rewrite createPreset_input_is_Some. unfold createPreset_accepts.
  rewrite required_name_accepts, length_accepts.
  rewrite !(z_default_accepts _ _ _ _ _ z_boolean_kind).
  rewrite !(z_optional_accepts _ _ _ _ z_boolean_kind).
  rewrite !(z_optional_accepts _ _ _ _ z_string_kind).
  done.
Qed.

Lemma updatePreset_input_accepts raw :
  is_Some (updatePreset_input raw) ↔ updatePreset_accepts raw.
Proof.
  assert (is_Some (updatePreset_object raw) ↔
          (∃ i, raw !! "id" = Some (VString i) ∧ i ≠ "") ∧
          absent_or is_string raw "name" ∧
          absent_or is_length raw "length" ∧
          absent_or is_boolean raw "includeLowercase" ∧
          absent_or is_boolean raw "includeUppercase" ∧
          absent_or is_boolean raw "includeNumbers" ∧
          absent_or is_boolean raw "includeSymbols" ∧
          absent_or is_boolean raw "excludeSimilar" ∧
          absent_or is_string raw "customSymbols" ∧
          absent_or is_string raw "notes" ∧
          absent_or is_boolean raw "isDefault") as Hobject.
  { rewrite updatePreset_object_is_Some, required_name_accepts.
    rewrite !(z_optional_accepts _ _ _ _ z_boolean_kind).
    rewrite !(z_optional_accepts _ _ _ _ z_string_kind).
    rewrite !(z_optional_accepts _ _ _ _ z_length_kind).
    done. }
  unfold updatePreset_accepts, updatePreset_input, z_refine.
  destruct (updatePreset_object raw) as [input|] eqn:Hparse; simpl.
  - pose proof (updatePreset_refine_keys _ _ Hparse) as Hkeys.
    assert (is_Some (Some input)) as Hsome by (by eexists).
    apply Hobject in Hsome.
    destruct (updatePreset_refine input); rewrite is_Some_alt.
    + split; [intros _|done]. pose proof (proj1 Hkeys eq_refl). tauto.
    + split; [done|]. intros Hacc.
      assert (false = true) as ?; [|done]. apply Hkeys. tauto.
  - rewrite is_Some_alt. split; [done|]. intros Hacc.
    assert (is_Some (@None UpdatePresetInput.t)) as []%is_Some_None.
    apply Hobject. tauto.
Qed.

Lemma logGeneratedPassword_input_accepts raw :
  is_Some (logGeneratedPassword_input raw) ↔ logGeneratedPassword_accepts raw.
Proof.
  rewrite logGeneratedPassword_input_is_Some. unfold logGeneratedPassword_accepts.
  rewrite !(z_optional_accepts _ _ _ _ z_boolean_kind).
  rewrite !(z_optional_accepts _ _ _ _ z_string_kind).
  rewrite (z_optional_accepts _ _ _ _ z_number_kind).
  rewrite (z_optional_accepts _ _ _ _ z_date_kind).
  done.
Qed.

Lemma handlers_never_input_error context env w w' :
  (∀ input, createPreset_handler input context env w ≠ (Err ActionInputError, w')) ∧
  (∀ input, updatePreset_handler input context env w ≠ (Err ActionInputError, w')) ∧
  (∀ input, listPresets_handler input context env w ≠ (Err ActionInputError, w')) ∧
  (∀ input, logGeneratedPassword_handler input context env w
            ≠ (Err ActionInputError, w')) ∧
  (∀ input, listGeneratedPasswords_handler input context env w
            ≠ (Err ActionInputError, w')).
Proof.
  split_and!; intros input; unfold_actions; case_outcome; discriminate.
Qed.

Lemma input_error_iff_rejected {I O} (schema : payload → option I)
    (handler : I → ActionAPIContext → Env → M O) raw context env w :
  (∀ input, handler input context env w ≠ (Err ActionInputError, w)) →
  defineAction schema handler raw context env w = (Err ActionInputError, w)
  ↔ ¬ is_Some (schema raw).
Proof.
  intros Hnever. unfold defineAction.
  destruct (schema raw) as [input|]; rewrite is_Some_alt.
  - split; [intros H; by destruct (Hnever input)|tauto].
  - split; [tauto|done].
Qed.

(** X10: createPreset fails on input validation (the world untouched) exactly
    when the payload is not of this shape: name a non-empty string, length an
    integer number that is at least 4, the five flags and isDefault absent or
    boolean, customSymbols and notes absent or strings.  In particular null is
    not accepted for an optional key. *)
Theorem createPreset_rejects_exactly raw context env w :
  createPreset raw context env w = (Err ActionInputError, w)
  ↔ ¬ createPreset_accepts raw.
Proof.
  rewrite <- createPreset_input_accepts. apply input_error_iff_rejected.
  apply handlers_never_input_error.
Qed.

(** X11: updatePreset fails on input validation (the world untouched) exactly
    when the payload is not of this shape: id a non-empty string, each of the
    ten other keys absent or of its kind (length an integer that is at least
    4; name any string, the empty one included), and at least one of the ten
    present. *)
Theorem updatePreset_rejects_exactly raw context env w :
  updatePreset raw context env w = (Err ActionInputError, w)
  ↔ ¬ updatePreset_accepts raw.
Proof.
  rewrite <- updatePreset_input_accepts. apply input_error_iff_rejected.
  apply handlers_never_input_error.
Qed.

(** X12: the three remaining actions take only optional keys: each fails on
    input validation (the world untouched) exactly when some key it reads is
    present with a value of the wrong kind (null included); keys it does not
    read are ignored. *)
Theorem optional_only_schemas_reject_exactly raw context env w :
  (listPresets raw context env w = (Err ActionInputError, w)
   ↔ ¬ absent_or is_boolean raw "defaultsOnly") ∧
  (logGeneratedPassword raw context env w = (Err ActionInputError, w)
   ↔ ¬ logGeneratedPassword_accepts raw) ∧
  (listGeneratedPasswords raw context env w = (Err ActionInputError, w)
   ↔ ¬ absent_or is_string raw "presetId").
Proof.
  split_and!.
  - rewrite <- (z_default_accepts z_boolean false _ _ _ z_boolean_kind).
    unfold listPresets.
    rewrite input_error_iff_rejected; [|apply handlers_never_input_error].
    unfold listPresets_input.
    by destruct (z_default z_boolean false (raw !! "defaultsOnly")); rewrite !is_Some_alt.
  - rewrite <- logGeneratedPassword_input_accepts. apply input_error_iff_rejected.
    apply handlers_never_input_error.
  - rewrite <- (z_optional_accepts z_string _ _ _ z_string_kind).
    unfold listGeneratedPasswords.
    rewrite input_error_iff_rejected; [|apply handlers_never_input_error].
    unfold listGeneratedPasswords_input.
    by destruct (z_optional z_string (raw !! "presetId")); rewrite !is_Some_alt.
Qed.

(** ** Invariants kept by every action *)

(** X13: every action, on any payload and for any caller, keeps the store
    well formed (ids unique per table, preset ids non-empty), provided the
    generated id is not the empty string. *)
Theorem actions_keep_store_well_formed raw context env w :
  wf_db (db w) →
  randomUUID env ≠ "" →
  wf_db (db (createPreset raw context env w).2) ∧
  wf_db (db (updatePreset raw context env w).2) ∧
  wf_db (db (listPresets raw context env w).2) ∧
  wf_db (db (logGeneratedPassword raw context env w).2) ∧
  wf_db (db (listGeneratedPasswords raw context env w).2).
Proof.
  intros Hwf Huuid. split_and!; (apply defineAction_preserves; [|exact Hwf]).
  - by apply createPreset_preserves.
  - by apply updatePreset_preserves.
  - by apply listPresets_preserves.
  - by apply logGeneratedPassword_preserves.
  - by apply listGeneratedPasswords_preserves.
Qed.

Lemma actions_keep_store_well_formed_witness :
  wf_db (db (createPreset Sample.wifi Sample.alice Sample.env Sample.world).2) ∧
  wf_db (db (updatePreset Sample.longer Sample.alice Sample.env Sample.world).2) ∧
  wf_db (db (listPresets ∅ Sample.alice Sample.env Sample.world).2) ∧
  wf_db (db (logGeneratedPassword Sample.copied Sample.alice Sample.env Sample.world).2) ∧
  wf_db (db (listGeneratedPasswords ∅ Sample.alice Sample.env Sample.world).2).
Proof.
  pose proof (actions_keep_store_well_formed Sample.wifi Sample.alice Sample.env
                Sample.world sample_world_wf) as (H1 & _); [discriminate|].
  pose proof (actions_keep_store_well_formed Sample.longer Sample.alice Sample.env
                Sample.world sample_world_wf) as (_ & H2 & _); [discriminate|].
  pose proof (actions_keep_store_well_formed ∅ Sample.alice Sample.env
                Sample.world sample_world_wf) as (_ & _ & H3 & _ & H5); [discriminate|].
  pose proof (actions_keep_store_well_formed Sample.copied Sample.alice Sample.env
                Sample.world sample_world_wf) as (_ & _ & _ & H4 & _); [discriminate|].
  by split_and!.
Defined.

Lemma truthy_Some s x : truthy s = Some x → s = Some x ∧ x ≠ "".
Proof.
  unfold truthy. destruct s as [y|]; [|done].
  destruct (String.eqb_spec y ""); [done|]. by intros [= ->].
Qed.

Lemma truthy_None s : truthy s = None → s = None ∨ s = Some "".
Proof.
  unfold truthy. destruct s as [y|]; [|by left].
  destruct (String.eqb_spec y ""); [|done]. intros _. right. by subst.
Qed.

Lemma refs_owned_more_presets d new :
  refs_owned d →
  refs_owned {| PasswordPresets := PasswordPresets d ++ new;
                GeneratedPasswords := GeneratedPasswords d |}.
Proof.
  unfold refs_owned. simpl. intros Hrefs.
  eapply Forall_impl; [exact Hrefs|]. intros g Hg pid Hpid Hne.
  destruct (Hg pid Hpid Hne) as (p & Hin & Hp). exists p. split; [|done].
  apply elem_of_app. by left.
Qed.

Lemma refs_owned_updated d s cond :
  refs_owned d →
  refs_owned {| PasswordPresets :=
                  map (λ r, if cond r : bool then PasswordPreset.apply_set s r else r)
                    (PasswordPresets d);
                GeneratedPasswords := GeneratedPasswords d |}.
Proof.
  unfold refs_owned. simpl. intros Hrefs.
  eapply Forall_impl; [exact Hrefs|]. intros g Hg pid Hpid Hne.
  destruct (Hg pid Hpid Hne) as (p & Hin & Hid & Hown).
  exists (if cond p then PasswordPreset.apply_set s p else p). split.
  - by apply (list_elem_of_fmap_2
                (λ r, if cond r then PasswordPreset.apply_set s r else r)).
  - by destruct (cond p).
Qed.

Lemma refs_owned_logged d g :
  refs_owned d →
  (∀ pid, GeneratedPassword.presetId g = Some pid → pid ≠ "" →
          ∃ p, p ∈ PasswordPresets d ∧ PasswordPreset.id p = pid ∧
               PasswordPreset.userId p = GeneratedPassword.userId g) →
  refs_owned {| PasswordPresets := PasswordPresets d;
                GeneratedPasswords := GeneratedPasswords d ++ [g] |}.
Proof.
  unfold refs_owned. simpl. intros Hrefs Hg.
  apply Forall_app. split; [done|]. by apply Forall_singleton.
Qed.

(** X14: every action keeps the log referentially sound: if before the call
    each logged password that names a preset by a non-empty id names an
    existing preset of the same owner, the same holds after the call,
    whatever the payload, the caller and the outcome. *)
Theorem actions_keep_references_owned raw context env w :
  refs_owned (db w) →
  refs_owned (db (createPreset raw context env w).2) ∧
  refs_owned (db (updatePreset raw context env w).2) ∧
  refs_owned (db (listPresets raw context env w).2) ∧
  refs_owned (db (logGeneratedPassword raw context env w).2) ∧
  refs_owned (db (listGeneratedPasswords raw context env w).2).
Proof.
  intros Hrefs.
  split_and!; unfold_actions; case_outcome; simpl; try done;
    first
      [ by apply (refs_owned_more_presets (db w) [_])
      | by apply refs_owned_updated
      | apply refs_owned_logged; [done|]; simpl; intros pid Hpid Hne;
        match goal with
        | H : truthy _ = Some _ |- _ =>
            apply truthy_Some in H as [Hsome _];
            match goal with H : head _ = Some ?p |- _ =>
              apply head_filter_Some in H as [Hin [Hid Hown]%owned_filter_true];
              exists p end;
            split; [done|]; split; congruence
        | H : truthy _ = None |- _ =>
            apply truthy_None in H as [Hnone|Hempty]; congruence
        end ].
Qed.

Lemma sample_world_refs : refs_owned (db Sample.world).
Proof.
  unfold refs_owned. simpl. apply Forall_singleton. intros pid [= <-] _.
  exists Sample.alices_preset. split; [|done].
  apply list_elem_of_further, list_elem_of_here.
Defined.

Lemma actions_keep_references_owned_witness :
  refs_owned
    (db (logGeneratedPassword
           {[ "presetId" := VString (PasswordPreset.id Sample.alices_preset) ]}
           Sample.alice Sample.env Sample.world).2) ∧
  refs_owned (db (updatePreset Sample.longer Sample.alice Sample.env Sample.world).2).
Proof.
  split.
  - apply (actions_keep_references_owned
             {[ "presetId" := VString (PasswordPreset.id Sample.alices_preset) ]}
             Sample.alice Sample.env Sample.world sample_world_refs).
  - apply (actions_keep_references_owned Sample.longer Sample.alice Sample.env
             Sample.world sample_world_refs).
Defined.

(** ** One user's calls and another user's rows *)

Lemma filter_snoc_other {A} (P : A → bool) (l : list A) r :
  P r = false → List.filter P (l ++ [r]) = List.filter P l.
Proof. intros Hr. rewrite List.filter_app. simpl. rewrite Hr. apply app_nil_r. Qed.

Lemma filter_update_others {A} (P cond : A → bool) (g : A → A) (l : list A) :
  (∀ r, r ∈ l → cond r = true → P r = false ∧ P (g r) = false) →
  List.filter P (map (λ r, if cond r then g r else r) l) = List.filter P l.
Proof.
  induction l as [|r l IH]; intros Hother; simpl; [done|].
  rewrite IH; [|intros r' Hr'; apply Hother; by apply list_elem_of_further].
  destruct (cond r) eqn:E; [|done].
  destruct (Hother r (list_elem_of_here _ _) E) as [-> ->]. done.
Qed.

Lemma same_id_same_row (l : list PasswordPreset.t) p r :
  NoDup (PasswordPreset.id <$> l) → p ∈ l → r ∈ l →
  PasswordPreset.id r = PasswordPreset.id p → r = p.
Proof.
  intros Hnd [i Hi]%list_elem_of_lookup_1 [j Hj]%list_elem_of_lookup_1 Hid.
  by eapply primary_key_injective.
Qed.

Lemma others_rows_kept raw context u env w v :
  wf_db (db w) → caller context = Some u → v ≠ user_id u →
  (presets_of v (db (createPreset raw context env w).2) = presets_of v (db w) ∧
   passwords_of v (db (createPreset raw context env w).2) = passwords_of v (db w)) ∧
  (presets_of v (db (updatePreset raw context env w).2) = presets_of v (db w) ∧
   passwords_of v (db (updatePreset raw context env w).2) = passwords_of v (db w)) ∧
  (presets_of v (db (logGeneratedPassword raw context env w).2) = presets_of v (db w) ∧
   passwords_of v (db (logGeneratedPassword raw context env w).2)
   = passwords_of v (db w)).
Proof.
  intros [Hpk _ _] Hu Hv. unfold caller in Hu. unfold presets_of, passwords_of.
  split_and!; unfold_actions; rewrite Hu; case_outcome; simpl; try done;
    first
      [ apply filter_snoc_other; unfold eq_; simpl; by apply bool_decide_eq_false
      | match goal with H : head _ = Some ?p |- _ =>
          apply head_filter_Some in H as [Hin [Hid Hown]%owned_filter_true];
          apply filter_update_others; intros r Hr Hk%bool_decide_eq_true;
          assert (r = p) as -> by (eapply same_id_same_row; [done..|congruence])
        end;
        unfold eq_; simpl; rewrite Hown;
        split; apply bool_decide_eq_false; congruence ].
Qed.

Lemma filter_and_cons {A} (f : A → bool) (filters : list (A → bool)) (l : list A) :
  List.filter (and_ (f :: filters)) l = List.filter (and_ filters) (List.filter f l).
Proof.
  induction l as [|r l IH]; simpl; [done|].
  unfold and_ at 1. simpl. fold (and_ filters r).
  destruct (f r); simpl; [|done].
  destruct (and_ filters r); by rewrite IH.
Qed.

Lemma owned_filter_by_owner presetId userId (l : list PasswordPreset.t) :
  List.filter (and_ [eq_ PasswordPreset.id presetId; eq_ PasswordPreset.userId userId]) l
  = List.filter (and_ [eq_ PasswordPreset.id presetId])
      (List.filter (eq_ PasswordPreset.userId userId) l).
Proof.
  rewrite <- filter_and_cons. apply filter_ext. intros r. unfold and_. simpl.
  rewrite !andb_true_r. apply andb_comm.
Qed.

Lemma same_rows_same_lists context v w w' :
  caller context = Some v →
  same_rows_for (user_id v) w w' → same_lists_for context w w'.
Proof.
  intros Hv [Hpresets Hpasswords] raw env. unfold caller in Hv.
  unfold presets_of, passwords_of in *.
  split; unfold_actions; rewrite Hv.
  - destruct (listPresets_input raw) as [input|]; [|done]. simpl.
    destruct (defaultsOnly input); simpl; rewrite !filter_and_cons, Hpresets;
      by destruct (forallb _ _).
  - destruct (listGeneratedPasswords_input raw) as [input|]; [|done]. simpl.
    destruct (truthy (presetId input)) as [pid|]; simpl.
    + rewrite !owned_filter_by_owner, Hpresets.
      destruct (forallb _ _); simpl; [|done].
      destruct (head _); simpl; [|done].
      rewrite !filter_and_cons, Hpasswords. by destruct (forallb _ _).
    + rewrite !filter_and_cons, Hpasswords. by destruct (forallb _ _).
Qed.

(** X15: in a well-formed store, whatever a signed-in user does through
    createPreset, updatePreset or logGeneratedPassword, with any payload and
    any outcome, the rows of every other user are exactly as before, and so
    is everything the two list actions return to that other user. *)
Theorem other_users_unaffected raw context u env w context2 v :
  wf_db (db w) →
  caller context = Some u →
  caller context2 = Some v →
  user_id v ≠ user_id u →
  (same_rows_for (user_id v) w (createPreset raw context env w).2 ∧
   same_lists_for context2 w (createPreset raw context env w).2) ∧
  (same_rows_for (user_id v) w (updatePreset raw context env w).2 ∧
   same_lists_for context2 w (updatePreset raw context env w).2) ∧
  (same_rows_for (user_id v) w (logGeneratedPassword raw context env w).2 ∧
   same_lists_for context2 w (logGeneratedPassword raw context env w).2).
Proof.
  intros Hwf Hu Hv Hne.
  destruct (others_rows_kept raw context u env w (user_id v) Hwf Hu Hne)
    as (Hcreate & Hupdate & Hlog).
  split_and!; try done; by apply (same_rows_same_lists _ v).
Qed.

Lemma other_users_unaffected_witness :
  same_rows_for "bob" Sample.world
    (updatePreset Sample.longer Sample.alice Sample.env Sample.world).2 ∧
  same_lists_for Scenario.bob Sample.world
    (updatePreset Sample.longer Sample.alice Sample.env Sample.world).2.
Proof.
  apply (other_users_unaffected Sample.longer Sample.alice {| user_id := "alice" |}
           Sample.env Sample.world Scenario.bob {| user_id := "bob" |}).
  - exact sample_world_wf.
  - reflexivity.
  - reflexivity.
  - simpl. discriminate.
Defined.

(** ** Round trips *)

Lemma existsb_key_filter {A} (key : A → string) k (cond : A → bool) (l : list A) :
  existsb (eq_ key k) l = false →
  (∀ r, cond r = true → key r = k) →
  List.filter cond l = [].
Proof.
  intros Hfresh%existsb_key Hkey. apply filter_none, Forall_forall. intros r Hr.
  destruct (cond r) eqn:E; [|done]. destruct Hfresh.
  rewrite <- (Hkey r E). by apply list_elem_of_fmap_2.
Qed.

Lemma filter_singleton {A} (cond : A → bool) r :
  List.filter cond [r] = if cond r then [r] else [].
Proof. done. Qed.

Lemma createPreset_Ok_inv raw context u env w res w' :
  createPreset raw context env w = (Ok res, w') →
  caller context = Some u →
  ∃ r,
    res = {| success := true; data := {| preset := Some r |} |} ∧
    db w' = {| PasswordPresets := PasswordPresets (db w) ++ [r];
               GeneratedPasswords := GeneratedPasswords (db w) |} ∧
    PasswordPreset.userId r = user_id u ∧
    PasswordPreset.id r = randomUUID env ∧
    existsb (eq_ PasswordPreset.id (PasswordPreset.id r)) (PasswordPresets (db w))
    = false ∧
    PasswordPreset.readable r = true.
Proof.
  intros Hrun Hu. unfold createPreset, defineAction in Hrun.
  destruct (createPreset_input raw) as [input|]; [|done].
  destruct (createPreset_handler_Ok _ _ _ _ _ _ _ Hu Hrun) as (-> & -> & ? & ?).
  eexists. by split_and!.
Qed.

Lemma logGeneratedPassword_Ok_inv raw context u env w res w' :
  logGeneratedPassword raw context env w = (Ok res, w') →
  caller context = Some u →
  ∃ r,
    res = {| success := true; data := {| password := Some r |} |} ∧
    db w' = {| PasswordPresets := PasswordPresets (db w);
               GeneratedPasswords := GeneratedPasswords (db w) ++ [r] |} ∧
    GeneratedPassword.userId r = user_id u ∧
    GeneratedPassword.id r = randomUUID env ∧
    GeneratedPassword.readable r = true ∧
    (∀ pid, truthy (GeneratedPassword.presetId r) = Some pid →
            is_Some (owned_preset pid (user_id u) (db w))).
Proof.
  intros Hrun Hu. unfold logGeneratedPassword, defineAction in Hrun.
  destruct (logGeneratedPassword_input raw) as [input|]; [|done].
  destruct (logGeneratedPassword_handler_Ok _ _ _ _ _ _ _ Hu Hrun)
    as (-> & -> & _ & _ & _ & _ & Hread & Howned).
  eexists. split_and!; try done.
  intros pid Hpid. destruct (Howned pid Hpid) as (p & Hp & _). by exists p.
Qed.

Lemma forallb_snoc {A} (f : A → bool) l r :
  forallb f l = true → f r = true → forallb f (l ++ [r]) = true.
Proof. intros Hl Hr. rewrite forallb_app, Hl. simpl. by rewrite Hr. Qed.

Lemma hand_back_all {R} (readable : R → bool) l :
  forallb readable l = true → hand_back readable l = Ok l.
Proof. unfold hand_back. by intros ->. Qed.

(** X16: in a store the client can read, a preset that createPreset has just
    returned can be fetched back by its creator through the ownership lookup,
    and shows up as the last item of the creator's listPresets: the
    unrestricted list grows by exactly that record, and the defaults-only
    list grows by it exactly when it is a default. *)
Theorem created_preset_round_trip raw context u env w res w' :
  createPreset raw context env w = (Ok res, w') →
  caller context = Some u →
  readable_db (db w) →
  ∃ r,
    preset (data res) = Some r ∧
    (getOwnedPreset (PasswordPreset.id r) (user_id u) w').1 = Ok r ∧
    ∀ input env2,
      ∃ before,
        (listPresets_handler input context env2 w).1 = Ok (listing before) ∧
        (listPresets_handler input context env2 w').1
        = Ok (listing
                (before ++ if negb (defaultsOnly input) || PasswordPreset.isDefault r
                           then [r] else [])).
Proof.
  intros Hrun Hu [Hreadable _].
  destruct (createPreset_Ok_inv _ _ _ _ _ _ _ Hrun Hu)
    as (r & -> & Hdb & Hown & _ & Hfresh & Hread).
  assert (forallb PasswordPreset.readable (PasswordPresets (db w')) = true)
    as Hreadable'.
  { rewrite Hdb. by apply forallb_snoc. }
  exists r. split; [done|]. split.
  - unfold getOwnedPreset, bind, select_PasswordPresets.
    rewrite (hand_back_readable _ _ _ Hreadable'). rewrite Hdb.
    cbn [db PasswordPresets].
    rewrite List.filter_app, filter_singleton.
    rewrite (existsb_key_filter _ _ _ _ Hfresh);
      [|by intros q [? _]%owned_filter_true].
    by rewrite (proj2 (owned_filter_true _ _ r)).
  - intros input env2.
    rewrite !(listPresets_handler_signed_in _ _ _ _ _ Hu). cbv zeta.
    rewrite (hand_back_readable _ _ _ Hreadable),
      (hand_back_readable _ _ _ Hreadable'). simpl.
    eexists. split; [reflexivity|]. rewrite Hdb. cbn [db PasswordPresets].
    rewrite List.filter_app, filter_singleton.
    assert (eq_ PasswordPreset.userId (user_id u) r = true) as Hmine.
    { unfold eq_. by apply bool_decide_eq_true. }
    destruct (defaultsOnly input); unfold and_ at 2; simpl; rewrite Hmine; simpl.
    + rewrite andb_true_r.
      assert (eq_ PasswordPreset.isDefault true r = PasswordPreset.isDefault r)
        as -> by (unfold eq_; by destruct (PasswordPreset.isDefault r)).
      done.
    + done.
Qed.

Lemma sample_world_readable : readable_db (db Sample.world).
Proof. split; reflexivity. Defined.

Lemma created_preset_round_trip_witness :
  ∃ res w' r,
    createPreset Sample.wifi Sample.alice Sample.env Sample.world = (Ok res, w') ∧
    preset (data res) = Some r ∧
    (getOwnedPreset (PasswordPreset.id r) "alice" w').1 = Ok r ∧
    (listPresets_handler {| defaultsOnly := false |} Sample.alice Sample.env w').1
    = Ok (listing [Sample.alices_preset; r]).
Proof.
  edestruct (created_preset_round_trip Sample.wifi Sample.alice {| user_id := "alice" |}
               Sample.env Sample.world) as (r & Hr & Hfetch & Hlist);
    [vm_compute; reflexivity|reflexivity|exact sample_world_readable|].
  destruct (Hlist {| defaultsOnly := false |} Sample.env) as (before & Hbefore & Hafter).
  injection Hbefore as <-.
  do 2 eexists. exists r. split; [vm_compute; reflexivity|].
  split; [exact Hr|]. split; [exact Hfetch|exact Hafter].
Defined.

Lemma getOwnedPreset_readable presetId userId w :
  forallb PasswordPreset.readable (PasswordPresets (db w)) = true →
  getOwnedPreset presetId userId w
  = (match owned_preset presetId userId (db w) with
     | Some p => Ok p
     | None => Err (ActionError NOT_FOUND)
     end,
     {| db := db w; calls := calls w ++ [SelectPasswordPresets] |}).
Proof.
  intros Hall. unfold getOwnedPreset, bind, select_PasswordPresets, owned_preset.
  rewrite (hand_back_readable _ _ _ Hall). by destruct (head _).
Qed.

Lemma listGeneratedPasswords_handler_signed_in input context u env w :
  caller context = Some u →
  readable_db (db w) →
  listGeneratedPasswords_handler input context env w
  = match truthy (presetId input) with
    | None =>
        (Ok (listing (passwords_of (user_id u) (db w))),
         {| db := db w; calls := calls w ++ [SelectGeneratedPasswords] |})
    | Some pid =>
        match owned_preset pid (user_id u) (db w) with
        | None => denied w
        | Some _ =>
            (Ok (listing
                   (List.filter
                      (λ g, bool_decide (GeneratedPassword.presetId g = Some pid))
                      (passwords_of (user_id u) (db w)))),
             {| db := db w;
                calls := calls w ++ [SelectPasswordPresets; SelectGeneratedPasswords] |})
        end
    end.
Proof.
  intros Hu [Hpresets Hpasswords].
  destruct (truthy (presetId input)) as [pid|] eqn:Hpid.
  - unfold listGeneratedPasswords_handler, bind.
    rewrite (requireUser_signed_in _ _ _ Hu), Hpid.
    rewrite (getOwnedPreset_readable _ _ _ Hpresets).
    unfold passwords_of, denied.
    destruct (owned_preset _ _ _); [|done].
    unfold ret, select_GeneratedPasswords, issue. cbn [db calls].
    rewrite (hand_back_readable _ _ _ Hpasswords). simpl.
    rewrite <- app_assoc, (filter_and_cons (eq_ GeneratedPassword.userId (user_id u))).
    unfold listing.
    do 4 f_equal; [|f_equal]; apply filter_ext; intros g; unfold and_, eq_; simpl;
      by rewrite andb_true_r.
  - rewrite (listGeneratedPasswords_handler_falsy _ _ _ _ _ Hu Hpid).
    unfold passwords_of. by rewrite (hand_back_readable _ _ _ Hpasswords).
Qed.

Lemma owned_preset_is_Some pid userId d p :
  p ∈ PasswordPresets d → PasswordPreset.id p = pid → PasswordPreset.userId p = userId →
  is_Some (owned_preset pid userId d).
Proof.
  intros Hin Hid Hown. eapply head_filter_is_Some; [exact Hin|].
  by apply owned_filter_true.
Qed.

(** X17: in a store the client can read, a password that
    logGeneratedPassword has just returned shows up as the last item of its
    owner's unfiltered listGeneratedPasswords, and, when it names a preset by
    a non-empty id, as the last item of the list filtered by that preset,
    which then succeeds. *)
Theorem logged_password_round_trip raw context u env w res w' :
  logGeneratedPassword raw context env w = (Ok res, w') →
  caller context = Some u →
  readable_db (db w) →
  ∃ r,
    password (data res) = Some r ∧
    (∀ env2,
       ∃ before,
         (listGeneratedPasswords_handler {| presetId := None |} context env2 w).1
         = Ok (listing before) ∧
         (listGeneratedPasswords_handler {| presetId := None |} context env2 w').1
         = Ok (listing (before ++ [r]))) ∧
    (∀ pid env2,
       truthy (GeneratedPassword.presetId r) = Some pid →
       ∃ before,
         (listGeneratedPasswords_handler {| presetId := Some pid |} context env2 w).1
         = Ok (listing before) ∧
         (listGeneratedPasswords_handler {| presetId := Some pid |} context env2 w').1
         = Ok (listing (before ++ [r]))).
Proof.
  intros Hrun Hu Hreadable.
  destruct (logGeneratedPassword_Ok_inv _ _ _ _ _ _ _ Hrun Hu)
    as (r & -> & Hdb & Hown & _ & Hread & Howned).
  assert (readable_db (db w')) as Hreadable'.
  { destruct Hreadable as [Hpresets Hpasswords]. rewrite Hdb.
    split; [done|]. by apply forallb_snoc. }
  assert (passwords_of (user_id u) (db w')
          = passwords_of (user_id u) (db w) ++ [r]) as Hmine.
  { unfold passwords_of. rewrite Hdb. simpl.
    rewrite List.filter_app, filter_singleton. unfold eq_ at 2.
    by rewrite bool_decide_eq_true_2. }
  exists r. split; [done|]. split.
  - intros env2.
    rewrite (listGeneratedPasswords_handler_signed_in _ _ _ _ _ Hu Hreadable),
      (listGeneratedPasswords_handler_signed_in _ _ _ _ _ Hu Hreadable').
    simpl. rewrite Hmine. by eexists.
  - intros pid env2 Hpid. destruct (Howned pid Hpid) as [p Hp].
    destruct (truthy_Some _ _ Hpid) as [Hsome Hne].
    rewrite (listGeneratedPasswords_handler_signed_in _ _ _ _ _ Hu Hreadable),
      (listGeneratedPasswords_handler_signed_in _ _ _ _ _ Hu Hreadable').
    cbn [presetId]. rewrite (truthy_nonempty _ Hne).
    rewrite Hmine. unfold owned_preset in *. rewrite Hdb. cbn [PasswordPresets].
    rewrite Hp. cbn [fst].
    rewrite List.filter_app, filter_singleton, bool_decide_eq_true_2; [|done].
    by eexists.
Qed.

(** X18: a signed-in caller who logs a password against a preset of their own
    that the client can read (well-formed store, non-empty id, accepted
    payload whose length, if any, is a finite number within the safe-integer
    range, fresh generated id) succeeds after one ownership select and one
    insert; the record appended and returned names that preset and belongs to
    the caller. *)
Theorem logGeneratedPassword_with_own_preset raw input context u env w p :
  caller context = Some u →
  logGeneratedPassword_input raw = Some input →
  raw !! "presetId" = Some (VString (PasswordPreset.id p)) →
  safe_number (LogGeneratedPasswordInput.length input) →
  wf_db (db w) →
  p ∈ PasswordPresets (db w) →
  PasswordPreset.userId p = user_id u →
  PasswordPreset.readable p = true →
  randomUUID env ∉ GeneratedPassword.id <$> GeneratedPasswords (db w) →
  ∃ r,
    logGeneratedPassword raw context env w
    = (Ok {| success := true; data := {| password := Some r |} |},
       {| db := {| PasswordPresets := PasswordPresets (db w);
                   GeneratedPasswords := GeneratedPasswords (db w) ++ [r] |};
          calls := calls w ++ [SelectPasswordPresets; InsertGeneratedPasswords] |}) ∧
    GeneratedPassword.presetId r = Some (PasswordPreset.id p) ∧
    GeneratedPassword.userId r = user_id u ∧
    GeneratedPassword.id r = randomUUID env.
Proof.
  intros Hu Hvalid Hraw Hsafe [Hpk _ Hids] Hin Hown Hread Hfresh.
  destruct (logGeneratedPassword_input_Some _ _ Hvalid) as [Hpid _].
  assert (LogGeneratedPasswordInput.presetId input = Some (PasswordPreset.id p))
    as Hsome.
  { rewrite Hraw in Hpid. simpl in Hpid. congruence. }
  assert (PasswordPreset.id p ≠ "") as Hne.
  { by apply (proj1 (Forall_forall _ _) Hids). }
  destruct (safe_number_binds_and_reads_back
              (logGeneratedPassword_values input u env) Hsafe) as [Hbind Hreadr].
  eexists. split.
  - unfold logGeneratedPassword. rewrite (defineAction_valid _ _ _ _ _ _ Hvalid).
    rewrite (logGeneratedPassword_handler_signed_in _ _ _ _ _ Hu). cbv zeta.
    rewrite Hsome, (truthy_nonempty _ Hne).
    rewrite (getOwnedPreset_found _ _ _ p Hpk Hin eq_refl Hown), Hread.
    unfold bind. rewrite insert_GeneratedPasswords_fresh; [|done| |done].
    + rewrite Hreadr. unfold ret. simpl. by rewrite <- app_assoc.
    + simpl. rewrite Hsome. simpl. apply existsb_exists. exists p.
      split; [by apply list_elem_of_In|]. unfold eq_. by apply bool_decide_eq_true.
  - done.
Qed.

Lemma logGeneratedPassword_with_own_preset_witness :
  ∃ r w',
    logGeneratedPassword Scenario.for_wifi Sample.alice Sample.env Sample.world
    = (Ok {| success := true; data := {| password := Some r |} |}, w') ∧
    calls w' = [SelectPasswordPresets; InsertGeneratedPasswords] ∧
    GeneratedPassword.presetId r = Some (PasswordPreset.id Sample.alices_preset).
Proof.
  destruct (logGeneratedPassword_with_own_preset Scenario.for_wifi
              Scenario.for_wifi_input Sample.alice {| user_id := "alice" |}
              Sample.env Sample.world Sample.alices_preset) as (r & Hrun & Hpid & _).
  - reflexivity.
  - vm_compute. reflexivity.
  - reflexivity.
  - exact I.
  - exact sample_world_wf.
  - simpl. apply list_elem_of_further, list_elem_of_here.
  - reflexivity.
  - reflexivity.
  - apply (bool_decide_unpack _). vm_compute. exact I.
  - exists r. eexists. split; [exact Hrun|]. split; [reflexivity|exact Hpid].
Defined.

(** X19: in a store the client can read, for a signed-in caller and a preset
    of their own with a non-empty id, listGeneratedPasswords filtered by that
    preset succeeds after one ownership select and one select on the log, and
    returns exactly the caller's passwords that name that preset, in table
    order: the items of the unfiltered list restricted to that preset. *)
Theorem listGeneratedPasswords_by_own_preset context u env w p :
  caller context = Some u →
  readable_db (db w) →
  PasswordPreset.id p ≠ "" →
  p ∈ PasswordPresets (db w) →
  PasswordPreset.userId p = user_id u →
  ∃ all,
    (listGeneratedPasswords_handler {| presetId := None |} context env w).1
    = Ok (listing all) ∧
    listGeneratedPasswords_handler {| presetId := Some (PasswordPreset.id p) |}
      context env w
    = (Ok (listing
             (List.filter
                (λ g, bool_decide
                        (GeneratedPassword.presetId g = Some (PasswordPreset.id p)))
                all)),
       {| db := db w;
          calls := calls w ++ [SelectPasswordPresets; SelectGeneratedPasswords] |}).
Proof.
  intros Hu Hreadable Hne Hin Hown.
  destruct (owned_preset_is_Some _ _ _ _ Hin eq_refl Hown) as [q Hq].
  rewrite !(listGeneratedPasswords_handler_signed_in _ _ _ _ _ Hu Hreadable).
  cbn [presetId]. rewrite (truthy_nonempty _ Hne), Hq. simpl. by eexists.
Qed.

Lemma taken_id_refused_witness :
  createPreset Sample.wifi Sample.alice Scenario.colliding_preset Sample.world
  = (Err ConstraintError,
     {| db := db Sample.world; calls := [InsertPasswordPresets] |}) ∧
  logGeneratedPassword Sample.copied Sample.alice Scenario.colliding_password
    Sample.world
  = (Err ConstraintError,
     {| db := db Sample.world; calls := [InsertGeneratedPasswords] |}).
Proof.
  split.
  - apply (proj1 (taken_id_refused Sample.wifi Sample.alice {| user_id := "alice" |}
                    Scenario.colliding_preset Sample.world eq_refl) Sample.wifi_input).
    + vm_compute. reflexivity.
    + simpl. apply list_elem_of_here.
  - apply (proj2 (taken_id_refused Sample.copied Sample.alice {| user_id := "alice" |}
                    Scenario.colliding_password Sample.world eq_refl)
             Sample.copied_input).
    + vm_compute. reflexivity.
    + reflexivity.
    + simpl. apply list_elem_of_here.
Defined.

Lemma logged_password_round_trip_witness :
  ∃ res w' r,
    logGeneratedPassword Scenario.for_wifi Sample.alice Sample.env Sample.world
    = (Ok res, w') ∧
    password (data res) = Some r ∧
    (listGeneratedPasswords_handler {| presetId := None |} Sample.alice Sample.env w').1
    = Ok (listing [Sample.alices_password; r]) ∧
    (listGeneratedPasswords_handler
       {| presetId := Some "a3c5e7f9-1b2d-4f60-8132-435465768798" |}
       Sample.alice Sample.env w').1
    = Ok (listing [Sample.alices_password; r]).
Proof.
  edestruct (logged_password_round_trip Scenario.for_wifi Sample.alice
               {| user_id := "alice" |} Sample.env Sample.world)
    as (r & Hr & Hall & Hpreset);
    [vm_compute; reflexivity|reflexivity|exact sample_world_readable|].
  destruct (Hall Sample.env) as (before & Hbefore & Hafter).
  destruct (Hpreset "a3c5e7f9-1b2d-4f60-8132-435465768798" Sample.env)
    as (before' & Hbefore' & Hafter').
  { injection Hr as <-. reflexivity. }
  injection Hbefore as <-. injection Hbefore' as <-.
  do 2 eexists. exists r. split; [vm_compute; reflexivity|].
  split; [exact Hr|]. split; [exact Hafter|exact Hafter'].
Defined.

Lemma listGeneratedPasswords_by_own_preset_witness :
  listGeneratedPasswords_handler
    {| presetId := Some (PasswordPreset.id Sample.alices_preset) |}
    Sample.alice Sample.env Sample.world
  = (Ok (listing [Sample.alices_password]),
     {| db := db Sample.world;
        calls := [SelectPasswordPresets; SelectGeneratedPasswords] |}).
Proof.
  destruct (listGeneratedPasswords_by_own_preset Sample.alice {| user_id := "alice" |}
              Sample.env Sample.world Sample.alices_preset)
    as (all & Hall & Hrun).
  - reflexivity.
  - exact sample_world_readable.
  - discriminate.
  - simpl. apply list_elem_of_further, list_elem_of_here.
  - reflexivity.
  - injection Hall as <-. exact Hrun.
Defined.

(** ** What is stored is what the payload held, text up to its first U+0000 *)

Lemma z_optional_passed_through {T} (s : schema T) (inj : T → value) raw key o :
  (∀ v x, s (Some v) = Some x → v = inj x) →
  z_optional s (raw !! key) = Some o → passed_through inj raw key o.
Proof.
  intros Hinj. unfold passed_through, z_optional.
  destruct (raw !! key) as [v|]; [|congruence].
  destruct (s (Some v)) as [x|] eqn:E; simpl; [|done].
  intros [= <-]. exists x. split; [by apply Hinj|done].
Qed.

Lemma z_string_inj v x : z_string (Some v) = Some x → v = VString x.
Proof. intros H%z_string_Some. congruence. Qed.

Lemma z_number_inj v x : z_number (Some v) = Some x → v = VNumber x.
Proof. intros H%z_number_Some. congruence. Qed.

Lemma z_date_inj v x : z_date (Some v) = Some x → v = VDate x.
Proof. intros H%z_date_Some. congruence. Qed.


Lemma logGeneratedPassword_input_fields raw input :
  logGeneratedPassword_input raw = Some input →
  passed_through VString raw "presetId" (LogGeneratedPasswordInput.presetId input) ∧
  passed_through VString raw "encryptedValue"
    (LogGeneratedPasswordInput.encryptedValue input) ∧
  passed_through VString raw "hintLabel" (LogGeneratedPasswordInput.hintLabel input) ∧
  passed_through VNumber raw "length" (LogGeneratedPasswordInput.length input) ∧
  passed_through VDate raw "lastCopiedAt"
    (LogGeneratedPasswordInput.lastCopiedAt input).
Proof.
  unfold logGeneratedPassword_input. intros H. invert_object H.
  split_and!;
    first [ by apply (z_optional_passed_through z_string VString _ _ _ z_string_inj)
          | by apply (z_optional_passed_through z_number VNumber _ _ _ z_number_inj)
          | by apply (z_optional_passed_through z_date VDate _ _ _ z_date_inj) ].
Qed.




(** ** Two updates in a row *)

Lemma lookup_later_wins (later earlier : gmap string value) key :
  (later ∪ earlier) !! key
  = match later !! key with Some v => Some v | None => earlier !! key end.
Proof. rewrite lookup_union. by destruct (later !! key), (earlier !! key). Qed.

Lemma union_optional {T} (s : schema T) (later earlier : gmap string value) key o2 o1 :
  z_optional s (later !! key) = Some o2 →
  z_optional s (earlier !! key) = Some o1 →
  z_optional s ((later ∪ earlier) !! key) = Some (later_wins o2 o1).
Proof.
  rewrite lookup_later_wins. unfold z_optional, later_wins.
  destruct (later !! key) as [v2|]; simpl.
  - destruct (s (Some v2)); simpl; [|done]. by intros [= <-] _.
  - by intros [= <-] ?.
Qed.

Lemma union_required (later earlier : gmap string value) key x :
  z_min_length 1 z_string (later !! key) = Some x →
  z_min_length 1 z_string ((later ∪ earlier) !! key) = Some x.
Proof. rewrite lookup_later_wins. by destruct (later !! key). Qed.

Lemma defined_later_wins {T} (later earlier : option T) :
  defined (later_wins later earlier) = defined later || defined earlier.
Proof. by destruct later. Qed.

Lemma updatePreset_input_union (later earlier : gmap string value) input2 input1 :
  updatePreset_input later = Some input2 →
  updatePreset_input earlier = Some input1 →
  updatePreset_input (later ∪ earlier) = Some (merge_updates input2 input1).
Proof.
  unfold updatePreset_input, z_refine.
  destruct (updatePreset_object later) as [i2|] eqn:H2; simpl; [|done].
  destruct (updatePreset_object earlier) as [i1|] eqn:H1; simpl; [|done].
  destruct (updatePreset_refine i2) eqn:Hr2; [|done].
  destruct (updatePreset_refine i1) eqn:Hr1; [|done].
  intros [= ->] [= ->].
  apply updatePreset_object_Some in H2
    as (Hid & A1 & A2 & A3 & A4 & A5 & A6 & A7 & A8 & A9 & A10).
  apply updatePreset_object_Some in H1
    as (_ & B1 & B2 & B3 & B4 & B5 & B6 & B7 & B8 & B9 & B10).
  unfold updatePreset_object, payload.
  rewrite (union_required _ earlier _ _ Hid).
  rewrite (union_optional _ _ _ _ _ _ A1 B1), (union_optional _ _ _ _ _ _ A2 B2),
    (union_optional _ _ _ _ _ _ A3 B3), (union_optional _ _ _ _ _ _ A4 B4),
    (union_optional _ _ _ _ _ _ A5 B5), (union_optional _ _ _ _ _ _ A6 B6),
    (union_optional _ _ _ _ _ _ A7 B7), (union_optional _ _ _ _ _ _ A8 B8),
    (union_optional _ _ _ _ _ _ A9 B9), (union_optional _ _ _ _ _ _ A10 B10).
  simpl. fold (merge_updates input2 input1).
  assert (updatePreset_refine (merge_updates input2 input1) = true) as ->; [|done].
  revert Hr2. unfold updatePreset_refine, merge_updates. simpl.
  rewrite !defined_later_wins, !orb_true_iff. tauto.
Qed.

(** An update that supplies no length, or a safe one, keeps a readable row
    readable. *)
Lemma apply_set_readable input env r :
  safe_number (Finite <$> UpdatePresetInput.length input) →
  PasswordPreset.readable r = true →
  PasswordPreset.readable
    (PasswordPreset.apply_set
       (PasswordPreset.stored_set (updatePreset_set input env)) r) = true.
Proof.
  unfold PasswordPreset.readable. simpl.
  destruct (UpdatePresetInput.length input) as [q|]; simpl; [|done].
  intros Hsafe _. by apply safe_reads_back.
Qed.

Lemma forallb_map_updated input env (cond : PasswordPreset.t → bool) l :
  safe_number (Finite <$> UpdatePresetInput.length input) →
  forallb PasswordPreset.readable l = true →
  forallb PasswordPreset.readable
    (map (λ r, if cond r
               then PasswordPreset.apply_set
                      (PasswordPreset.stored_set (updatePreset_set input env)) r
               else r) l) = true.
Proof.
  intros Hsafe. induction l as [|r l IH]; simpl; [done|].
  intros [Hr Hl]%andb_true_iff. rewrite (IH Hl), andb_true_r.
  destruct (cond r); [by apply apply_set_readable|done].
Qed.

Lemma forallb_map_filtered input env (cond : PasswordPreset.t → bool) l :
  safe_number (Finite <$> UpdatePresetInput.length input) →
  forallb PasswordPreset.readable l = true →
  forallb PasswordPreset.readable
    (map (PasswordPreset.apply_set
            (PasswordPreset.stored_set (updatePreset_set input env)))
       (List.filter cond l)) = true.
Proof.
  intros Hsafe. induction l as [|r l IH]; simpl; [done|].
  intros [Hr Hl]%andb_true_iff. destruct (cond r); simpl; [|by apply IH].
  by rewrite (IH Hl), andb_true_r, apply_set_readable.
Qed.

Lemma updatePreset_handler_signed_in input context u env w :
  caller context = Some u →
  forallb PasswordPreset.readable (PasswordPresets (db w)) = true →
  safe_number (Finite <$> UpdatePresetInput.length input) →
  updatePreset_handler input context env w
  = match owned_preset (UpdatePresetInput.id input) (user_id u) (db w) with
    | None => denied w
    | Some _ =>
        let s := PasswordPreset.stored_set (updatePreset_set input env) in
        let k := UpdatePresetInput.id input in
        (Ok {| success := true;
               data := {| preset :=
                            head (map (PasswordPreset.apply_set s)
                                    (List.filter (eq_ PasswordPreset.id k)
                                       (PasswordPresets (db w)))) |} |},
         {| db := {| PasswordPresets :=
                       map (λ r, if eq_ PasswordPreset.id k r
                                 then PasswordPreset.apply_set s r else r)
                         (PasswordPresets (db w));
                     GeneratedPasswords := GeneratedPasswords (db w) |};
            calls := calls w ++ [SelectPasswordPresets; UpdatePasswordPresets] |})
    end.
Proof.
  intros Hu Hreadable Hsafe. unfold updatePreset_handler, bind.
  rewrite (requireUser_signed_in _ _ _ Hu).
  rewrite (getOwnedPreset_readable _ _ _ Hreadable). unfold denied.
  destruct (owned_preset _ _ _); [|done].
  unfold update_PasswordPresets, hand_back, issue. cbn [db calls].
  rewrite (forallb_map_filtered _ _ _ _ Hsafe Hreadable).
  unfold ret. cbv zeta. by rewrite <- app_assoc.
Qed.

Lemma filter_map_stable {A} (cond : A → bool) (f : A → A) (l : list A) :
  (∀ r, cond (f r) = cond r) →
  List.filter cond (map f l) = map f (List.filter cond l).
Proof.
  intros Hstable. induction l as [|r l IH]; simpl; [done|].
  rewrite Hstable, IH. by destruct (cond r).
Qed.

Lemma head_map {A B} (f : A → B) (l : list A) : head (map f l) = f <$> head l.
Proof. by destruct l. Qed.

Lemma apply_set_twice input2 input1 env2 env1 r :
  PasswordPreset.apply_set (PasswordPreset.stored_set (updatePreset_set input2 env2))
    (PasswordPreset.apply_set
       (PasswordPreset.stored_set (updatePreset_set input1 env1)) r)
  = PasswordPreset.apply_set
      (PasswordPreset.stored_set
         (updatePreset_set (merge_updates input2 input1) env2)) r.
Proof.
  unfold PasswordPreset.apply_set, PasswordPreset.stored_set, updatePreset_set,
    merge_updates, later_wins. simpl.
  f_equal;
    match goal with |- context [match ?x with _ => _ end] => by destruct x end.
Qed.

Lemma merged_length_safe input2 input1 :
  safe_number (Finite <$> UpdatePresetInput.length input1) →
  safe_number (Finite <$> UpdatePresetInput.length input2) →
  safe_number (Finite <$> UpdatePresetInput.length (merge_updates input2 input1)).
Proof. simpl. by destruct (UpdatePresetInput.length input2). Qed.

Lemma updatePreset_handler_twice input2 input1 context env2 env1 w :
  UpdatePresetInput.id input1 = UpdatePresetInput.id input2 →
  forallb PasswordPreset.readable (PasswordPresets (db w)) = true →
  safe_number (Finite <$> UpdatePresetInput.length input1) →
  safe_number (Finite <$> UpdatePresetInput.length input2) →
  (updatePreset_handler input2 context env2
     (updatePreset_handler input1 context env1 w).2).1
  = (updatePreset_handler (merge_updates input2 input1) context env2 w).1 ∧
  db (updatePreset_handler input2 context env2
        (updatePreset_handler input1 context env1 w).2).2
  = db (updatePreset_handler (merge_updates input2 input1) context env2 w).2.
Proof.
  intros Hid Hreadable Hsafe1 Hsafe2.
  destruct (caller context) as [u|] eqn:Hu.
  2:{ unfold updatePreset_handler, bind.
      by rewrite !(requireUser_anonymous _ _ Hu). }
  rewrite (updatePreset_handler_signed_in input1 _ _ _ _ Hu Hreadable Hsafe1).
  rewrite (updatePreset_handler_signed_in (merge_updates input2 input1) _ _ _ _ Hu
             Hreadable (merged_length_safe _ _ Hsafe1 Hsafe2)).
  change (UpdatePresetInput.id (merge_updates input2 input1))
    with (UpdatePresetInput.id input2).
  rewrite Hid.
  set (k := UpdatePresetInput.id input2).
  set (s1 := PasswordPreset.stored_set (updatePreset_set input1 env1)).
  set (f1 := λ r, if eq_ PasswordPreset.id k r
                  then PasswordPreset.apply_set s1 r else r).
  assert (∀ (cond : PasswordPreset.t → bool),
            (∀ r s, cond (PasswordPreset.apply_set s r) = cond r) →
            ∀ l, List.filter cond (map f1 l) = map f1 (List.filter cond l)) as Hstable.
  { intros cond Hcond l. apply filter_map_stable. intros r. unfold f1.
    destruct (eq_ PasswordPreset.id k r); [apply Hcond|done]. }
  destruct (owned_preset k (user_id u) (db w)) as [p|] eqn:Hp.
  - cbv zeta. cbn [snd].
    rewrite (updatePreset_handler_signed_in input2 _ _ _ _ Hu); [| |done].
    2:{ cbn [db PasswordPresets]. by apply forallb_map_updated. }
    fold k. cbv zeta. cbn [snd fst db PasswordPresets GeneratedPasswords].
    unfold owned_preset in *. cbn [PasswordPresets]. fold f1.
    rewrite Hstable; [|done]. rewrite head_map, Hp. cbn [fmap option_fmap option_map].
    rewrite Hstable; [|done].
    assert (∀ l : list PasswordPreset.t,
              map (PasswordPreset.apply_set
                     (PasswordPreset.stored_set (updatePreset_set input2 env2)))
                (map f1 (List.filter (eq_ PasswordPreset.id k) l))
              = map (PasswordPreset.apply_set
                       (PasswordPreset.stored_set
                          (updatePreset_set (merge_updates input2 input1) env2)))
                  (List.filter (eq_ PasswordPreset.id k) l)) as Hrows.
    { intros l. rewrite <- list_fmap_compose.
      induction l as [|r l IH]; simpl; [done|].
      destruct (eq_ PasswordPreset.id k r) eqn:E; simpl; [|done].
      unfold f1 at 1. rewrite E. unfold s1. rewrite apply_set_twice. f_equal. exact IH. }
    rewrite Hrows. split; [done|]. simpl. f_equal.
    rewrite <- list_fmap_compose. apply list_fmap_ext. intros i r _. simpl.
    unfold f1. destruct (eq_ PasswordPreset.id k r) eqn:E.
    + assert (eq_ PasswordPreset.id k (PasswordPreset.apply_set s1 r) = true)
        as -> by done.
      apply apply_set_twice.
    + by rewrite E.
  - unfold denied. cbn [snd].
    rewrite (updatePreset_handler_signed_in input2 _ _ _ _ Hu); [|done..].
    fold k. cbn [db]. by rewrite Hp.
Qed.

(** X21: in a store the client can read, two accepted updates of the same id
    whose lengths, if supplied, are within the safe-integer range, issued one
    after the other by the same caller, return the same record and leave the
    same tables as the single update whose payload is the later one laid over
    the earlier one (a key of the later payload wins), made at the later
    time; this holds for every caller, whether or not the preset is found. *)
Theorem consecutive_updates_merge (earlier later : gmap string value) input1 input2
    context env1 env2 w :
  updatePreset_input earlier = Some input1 →
  updatePreset_input later = Some input2 →
  UpdatePresetInput.id input1 = UpdatePresetInput.id input2 →
  readable_db (db w) →
  safe_number (Finite <$> UpdatePresetInput.length input1) →
  safe_number (Finite <$> UpdatePresetInput.length input2) →
  (updatePreset later context env2 (updatePreset earlier context env1 w).2).1
  = (updatePreset (later ∪ earlier) context env2 w).1 ∧
  db (updatePreset later context env2 (updatePreset earlier context env1 w).2).2
  = db (updatePreset (later ∪ earlier) context env2 w).2.
Proof.
  intros H1 H2 Hid [Hreadable _] Hsafe1 Hsafe2. unfold updatePreset.
  rewrite (defineAction_valid _ _ _ _ _ _ H1), (defineAction_valid _ _ _ _ _ _ H2).
  rewrite (defineAction_valid _ _ _ _ _ _ (updatePreset_input_union _ _ _ _ H2 H1)).
  by apply updatePreset_handler_twice.
Qed.

Lemma consecutive_updates_merge_witness :
  (updatePreset Scenario.renamed Sample.alice Sample.env
     (updatePreset Sample.longer Sample.alice Sample.env Sample.world).2).1
  = (updatePreset (Scenario.renamed ∪ Sample.longer) Sample.alice Sample.env
       Sample.world).1 ∧
  db (updatePreset Scenario.renamed Sample.alice Sample.env
        (updatePreset Sample.longer Sample.alice Sample.env Sample.world).2).2
  = db (updatePreset (Scenario.renamed ∪ Sample.longer) Sample.alice Sample.env
          Sample.world).2.
Proof.
  eapply (consecutive_updates_merge Sample.longer Scenario.renamed).
  - vm_compute. reflexivity.
  - vm_compute. reflexivity.
  - reflexivity.
  - exact sample_world_readable.
  - vm_compute. split; discriminate.
  - exact I.
Defined.

(** ** Numbers the client cannot read, and numbers it cannot pass *)




(** X23: an infinite length is rejected by the schemas of createPreset and
    updatePreset, which want an integer, and accepted by the schema of
    logGeneratedPassword; there the client refuses it at the insert, so the
    call fails and no row is written; when presetId is unset the insert is
    the only call issued and the error is a RangeError. *)
Theorem infinite_length_refused (raw : payload) context env w negative :
  raw !! "length" = Some (VNumber (Infinity negative)) →
  createPreset raw context env w = (Err ActionInputError, w) ∧
  updatePreset raw context env w = (Err ActionInputError, w) ∧
  absent_or is_number raw "length" ∧
  (∃ e, (logGeneratedPassword raw context env w).1 = Err e) ∧
  db (logGeneratedPassword raw context env w).2 = db w ∧
  (∀ u input,
     caller context = Some u →
     logGeneratedPassword_input raw = Some input →
     raw !! "presetId" = None →
     logGeneratedPassword raw context env w
     = (Err RangeError,
        {| db := db w; calls := calls w ++ [InsertGeneratedPasswords] |})).
Proof.
  intros Hlen.
  assert (∀ input, logGeneratedPassword_input raw = Some input →
            LogGeneratedPasswordInput.length input = Some (Infinity negative))
    as Hparsed.
  { intros input Hvalid.
    apply logGeneratedPassword_input_fields in Hvalid as (_ & _ & _ & Hl & _).
    unfold passed_through in Hl. rewrite Hlen in Hl.
    destruct Hl as (x & [= <-] & ->). done. }
  split_and!.
  - apply defineAction_invalid. unfold createPreset_input.
    rewrite Hlen. by destruct (z_min_length 1 z_string (raw !! "name")).
  - apply defineAction_invalid. unfold updatePreset_input, updatePreset_object.
    rewrite Hlen.
    destruct (z_min_length 1 z_string (raw !! "id")); [|done]. simpl.
    by destruct (z_optional z_string (raw !! "name")).
  - unfold absent_or. rewrite Hlen. by eexists.
  - unfold_actions.
    destruct (logGeneratedPassword_input raw) as [input|] eqn:Hvalid;
      [|by eexists].
    unfold GeneratedPassword.bindable. cbn [GeneratedPassword.length].
    rewrite (Hparsed input eq_refl). case_outcome; try done; by eexists.
  - unfold_actions.
    destruct (logGeneratedPassword_input raw) as [input|] eqn:Hvalid; [|done].
    unfold GeneratedPassword.bindable. cbn [GeneratedPassword.length].
    rewrite (Hparsed input eq_refl). by case_outcome.
  - intros u input Hu Hvalid Hunset.
    destruct (logGeneratedPassword_input_Some _ _ Hvalid) as [Hpid _].
    assert (LogGeneratedPasswordInput.presetId input = None) as Hnone.
    { apply z_optional_Some in Hpid as [[_ ?]|(? & ? & _)]; done. }
    rewrite (logGeneratedPassword_signed_in _ _ _ _ _ _ Hu Hvalid);
      [|by rewrite Hnone].
    unfold bind, insert_GeneratedPasswords, GeneratedPassword.bindable. simpl.
    by rewrite (Hparsed input Hvalid).
Qed.

Lemma infinite_length_refused_witness :
  createPreset Scenario.endless_log Sample.alice Sample.env Sample.world
  = (Err ActionInputError, Sample.world) ∧
  logGeneratedPassword Scenario.endless_log Sample.alice Sample.env Sample.world
  = (Err RangeError,
     {| db := db Sample.world; calls := [InsertGeneratedPasswords] |}).
Proof.
  destruct (infinite_length_refused Scenario.endless_log Sample.alice Sample.env
              Sample.world false) as (Hcreate & _ & _ & _ & _ & Hlog).
  - reflexivity.
  - split; [exact Hcreate|].
    apply (Hlog {| user_id := "alice" |} Scenario.endless_log_input).
    + reflexivity.
    + vm_compute. reflexivity.
    + reflexivity.
Defined.

Lemma forallb_updated (readable cond : PasswordPreset.t → bool) f l :
  forallb readable l = true →
  forallb readable (map f (List.filter cond l)) = true →
  forallb readable (map (λ r, if cond r then f r else r) l) = true.
Proof.
  induction l as [|r l IH]; simpl; [done|].
  intros [Hr Hl]%andb_true_iff. destruct (cond r); simpl.
  - intros [Hfr Hfl]%andb_true_iff. by rewrite Hfr, IH.
  - intros Hfl. by rewrite Hr, IH.
Qed.

(** X24: the actions keep a store readable unless they fail with a
    RangeError: if the client can hand back every row before the call, and
    createPreset, updatePreset or logGeneratedPassword ends in anything but a
    RangeError, the client can hand back every row after it; and in such a
    store the two list actions never fail with a RangeError. *)
Theorem readable_store_kept raw context env w :
  readable_db (db w) →
  ((createPreset raw context env w).1 ≠ Err RangeError →
   readable_db (db (createPreset raw context env w).2)) ∧
  ((updatePreset raw context env w).1 ≠ Err RangeError →
   readable_db (db (updatePreset raw context env w).2)) ∧
  ((logGeneratedPassword raw context env w).1 ≠ Err RangeError →
   readable_db (db (logGeneratedPassword raw context env w).2)) ∧
  (listPresets raw context env w).1 ≠ Err RangeError ∧
  (listGeneratedPasswords raw context env w).1 ≠ Err RangeError.
Proof.
  intros [Hpresets Hpasswords].
  assert (∀ cond, forallb PasswordPreset.readable
                    (List.filter cond (PasswordPresets (db w))) = true) as Hp.
  { intros cond. by apply forallb_filter. }
  assert (∀ cond, forallb GeneratedPassword.readable
                    (List.filter cond (GeneratedPasswords (db w))) = true) as Hg.
  { intros cond. by apply forallb_filter. }
  split_and!; unfold_actions; cbn [db PasswordPresets GeneratedPasswords];
    rewrite ?Hp, ?Hg; case_outcome; cbn [fst snd db]; try done;
    try (match goal with
         | H : forallb _ (List.filter _ _) = false |- _ =>
             by rewrite ?Hp, ?Hg in H
         end);
    intros _; split; cbn [PasswordPresets GeneratedPasswords]; try done.
  - apply forallb_snoc; [done|].
    match goal with H : forallb _ [_] = true |- _ =>
      simpl in H; by apply andb_true_iff in H as [? _] end.
  - by apply forallb_updated.
  - apply forallb_snoc; [done|].
    match goal with H : forallb _ [_] = true |- _ =>
      simpl in H; by apply andb_true_iff in H as [? _] end.
  - apply forallb_snoc; [done|].
    match goal with H : forallb _ [_] = true |- _ =>
      simpl in H; by apply andb_true_iff in H as [? _] end.
Qed.

Lemma readable_store_kept_witness :
  readable_db
    (db (createPreset Sample.wifi Sample.alice Sample.env Sample.world).2) ∧
  (listPresets ∅ Sample.alice Sample.env Sample.world).1 ≠ Err RangeError.
Proof.
  destruct (readable_store_kept Sample.wifi Sample.alice Sample.env Sample.world
              sample_world_readable) as (Hcreate & _).
  destruct (readable_store_kept ∅ Sample.alice Sample.env Sample.world
              sample_world_readable) as (_ & _ & _ & Hlist & _).
  split; [|exact Hlist]. apply Hcreate. vm_compute. discriminate.
Defined.
